(** * The game loop of the chess application (chess.py)

    A shallow embedding of [ChessGame]: the evaluation retrieval, the
    square/pixel geometry, the engine turn and the event dispatch of
    [ChessGame.run].  The chess rules (python-chess) and the engine
    (Stockfish) are collaborators of the program: the first enters as the
    interface [RulesEngine], the second as an oracle [Advisor] that answers
    each call. *)

From Stdlib Require Import ZArith Lia Floats Ascii String.
From stdpp Require Import base option list gmap strings.

Local Open Scope Z_scope.

(** ** Python values, exceptions and the effect of a handler *)

(** The values found in the dictionary that [Stockfish.get_evaluation]
    returns. *)
Inductive PyVal :=
| PyInt (n : Z)
| PyStr (s : string).

(** The exceptions that can leave the code of [ChessGame]. *)
Inductive exn :=
| KeyError (key : string)
| TypeError
| OverflowError
| InvalidMoveError (uci : string)
| EngineError.

Inductive outcome (A : Type) :=
| Ok (a : A)
| Raise (e : exn).
Arguments Ok {A} a.
Arguments Raise {A} e.

(** A computation returns or raises, and leaves the list of the calls it
    made to the engine (of type [Q]). *)
Definition Eff (Q A : Type) : Type := list Q * outcome A.

Definition ret {Q A} (a : A) : Eff Q A := ([], Ok a).
Definition throw {Q A} (e : exn) : Eff Q A := ([], Raise e).
Definition tell {Q} (q : Q) : Eff Q unit := ([q], Ok tt).
Definition lift {Q A} (o : outcome A) : Eff Q A := ([], o).

Definition bind {Q A B} (m : Eff Q A) (k : A -> Eff Q B) : Eff Q B :=
  match m with
  | (l, Ok a) => let '(l', r) := k a in (l ++ l', r)
  | (l, Raise e) => (l, Raise e)
  end.

Notation "'do' x <- m ; k" := (bind m (fun x => k))
  (at level 10, x name, m at level 100, k at level 200).

Definition calls {Q A} (m : Eff Q A) : list Q := fst m.
Definition result {Q A} (m : Eff Q A) : outcome A := snd m.

(** The same for a computation that makes no call. *)
Definition obind {A B} (m : outcome A) (k : A -> outcome B) : outcome B :=
  match m with
  | Ok a => k a
  | Raise e => Raise e
  end.

Notation "'get' x <- m ; k" := (obind m (fun x => k))
  (at level 10, x name, m at level 100, k at level 200).

(** [d[key]] on a dictionary. *)
Definition getitem (d : gmap string PyVal) (key : string) : outcome PyVal :=
  match d !! key with
  | Some v => Ok v
  | None => Raise (KeyError key)
  end.

(** [v == s] for a string literal [s]. *)
Definition py_eq_str (v : PyVal) (s : string) : bool :=
  match v with
  | PyStr t => String.eqb t s
  | PyInt _ => false
  end.

(** [float(n)] for a Python integer: the nearest binary64 value, and
    [OverflowError] past the largest one. *)
Definition float_of_int (n : Z) : outcome float :=
  let f := SF2Prim (binary_normalize prec emax n 0 false) in
  if is_infinity f then Raise OverflowError else Ok f.

(** [v / y] for a float [y]. *)
Definition py_truediv (v : PyVal) (y : float) : outcome float :=
  match v with
  | PyInt n =>
      match float_of_int n with
      | Ok x => Ok (x / y)%float
      | Raise e => Raise e
      end
  | PyStr _ => Raise TypeError
  end.

(** [v > 0]. *)
Definition py_gt0 (v : PyVal) : outcome bool :=
  match v with
  | PyInt n => Ok (0 <? n)
  | PyStr _ => Raise TypeError
  end.

(** The builtins [min(a, b)] and [max(a, b)] on floats: the first argument
    is kept unless the second is strictly smaller (larger). *)
Definition py_min (a b : float) : float := if (b <? a)%float then b else a.
Definition py_max (a b : float) : float := if (a <? b)%float then b else a.

(** [max(-5.0, min(5.0, raw_score))] *)
Definition clamp (raw_score : float) : float :=
  py_max (-5.0)%float (py_min 5.0%float raw_score).

(** The value that [get_evaluation_score] gives its variable [raw_score],
    from the dictionary [evaluation]. *)
Definition raw_score (evaluation : gmap string PyVal) : outcome float :=
  get ty <- getitem evaluation "type";
  if py_eq_str ty "cp" then
    get v <- getitem evaluation "value";
    py_truediv v 100%float
  else
    get ty' <- getitem evaluation "type";
    if py_eq_str ty' "mate" then
      get v <- getitem evaluation "value";
      get positive <- py_gt0 v;
      Ok (if positive : bool then 5.0%float else (-5.0)%float)
    else Ok 0%float.


(** ** Board geometry *)

Definition BOARD_SIZE : Z := 400.
Definition SQUARE_SIZE : Z := BOARD_SIZE / 8.

(** The top-left corner of the rectangle that [highlight_square] draws. *)
Definition square_to_pixel (square : Z) : Z * Z :=
  let col := square mod 8 in
  let row := 7 - square / 8 in
  (col * SQUARE_SIZE, row * SQUARE_SIZE).

(** The square under a pointer position, as [run] computes it. *)
Definition pixel_to_square (pos : Z * Z) : Z :=
  let '(x, y) := pos in
  let col := x / SQUARE_SIZE in
  let row := y / SQUARE_SIZE in
  let chess_row := 7 - row in
  chess_row * 8 + col.

(** "Only process clicks on the board area." *)
Definition on_board_area (pos : Z * Z) : bool :=
  let '(x, y) := pos in (x <? BOARD_SIZE) && (y <? BOARD_SIZE).

Definition click_to_square (pos : Z * Z) : option Z :=
  if on_board_area pos then Some (pixel_to_square pos) else None.

(** ** The chess rules, as the program uses them *)

Inductive Color := White | Black.
Inductive PieceType := Pawn | Knight | Bishop | Rook | Queen | King.

Record Piece := mkPiece { piece_type : PieceType; color : Color }.

Record Move := mkMove {
  from_square : Z;
  to_square : Z;
  promotion : option PieceType;
  drop : option PieceType
}.

Definition Color_eqb (a b : Color) : bool :=
  match a, b with
  | White, White | Black, Black => true
  | _, _ => false
  end.

(** What [ChessGame] calls on [chess.Board] and [chess.Move]. *)
Class RulesEngine := {
  Board : Type;
  (** [chess.Board()]; [Board.reset()] restores the same state. *)
  new_board : Board;
  turn : Board -> Color;
  piece_at : Board -> Z -> option Piece;
  (** [move in board.legal_moves] *)
  is_legal : Board -> Move -> bool;
  push : Board -> Move -> Board;
  (** [board.pop()], called under the guard [len(board.move_stack) >= 1] *)
  pop : Board -> Board;
  move_stack : Board -> list Move;
  is_game_over : Board -> bool;
  (** [chess.Move.from_uci]; [None] when it raises [InvalidMoveError] *)
  from_uci : string -> option Move
}.

(** The facts of python-chess that the properties about histories rest on:
    a fresh board has no history and is not over, [push] puts one move on
    top of the stack, and [pop] undoes [push]. *)
Class RulesLaws (R : RulesEngine) : Prop := {
  move_stack_new : move_stack new_board = [];
  move_stack_push : forall b m, exists m', move_stack (push b m) = move_stack b ++ [m'];
  pop_push : forall b m, pop (push b m) = b;
  new_board_playable : is_game_over new_board = false
}.

(** ** The engine *)

(** The answers of the Stockfish wrapper to the two calls the program
    makes, each preceded by [set_fen_position(board.fen())] inside the same
    [try] block: the position is the argument, [Raise] is any exception
    raised by either call. *)
Record Advisor (B : Type) := mkAdvisor {
  get_evaluation : B -> outcome (gmap string PyVal);
  get_best_move : B -> outcome (option string)
}.
Arguments mkAdvisor {B} _ _.
Arguments get_evaluation {B} _ _.
Arguments get_best_move {B} _ _.

(** The calls made to the engine. *)
Inductive Query (B : Type) :=
| QEvaluation (b : B)
| QBestMove (b : B).
Arguments QEvaluation {B} b.
Arguments QBestMove {B} b.

(** The attributes of [ChessGame] that the loop reads and writes, the timer
    that pygame keeps for [AI_MOVE_EVENT] ([Some ms] while it runs) and the
    variable [running] of [run].  [stockfish] tells whether [self.stockfish]
    is an engine or [None]; [B] is the type of the board. *)
Record Game (B : Type) := mkGame {
  stockfish : bool;
  board : B;
  selected_square : option Z;
  last_ai_move : option Move;
  current_score : float;
  ai_move_scheduled : bool;
  timer : option Z;
  running : bool
}.
Arguments mkGame {B} _ _ _ _ _ _ _ _.
Arguments stockfish {B} _.
Arguments board {B} _.
Arguments selected_square {B} _.
Arguments last_ai_move {B} _.
Arguments current_score {B} _.
Arguments ai_move_scheduled {B} _.
Arguments timer {B} _.
Arguments running {B} _.

(** ** The game *)

Definition K_u : Z := 117.
Definition K_r : Z := 114.

Inductive Event :=
| QUIT
| MOUSEBUTTONDOWN (pos : Z * Z)
| KEYDOWN (key : Z)
| AI_MOVE_EVENT
| OTHER.

(** pygame reports the position of a press inside the window: neither
    coordinate is negative.  The squares that [run] computes from such a
    press on the board area are squares of the board; for others
    python-chess raises [IndexError] or reads the square from the end. *)
Definition press_nonnegative (event : Event) : bool :=
  match event with
  | MOUSEBUTTONDOWN (x, y) => (0 <=? x) && (0 <=? y)
  | _ => true
  end.

Section ChessGame.
Context `{R : RulesEngine}.

Implicit Types (g : Game Board) (adv : Advisor Board).

Definition set_board g (b : Board) : Game Board :=
  mkGame (stockfish g) b (selected_square g) (last_ai_move g)
         (current_score g) (ai_move_scheduled g) (timer g) (running g).
Definition set_selected_square g (s : option Z) : Game Board :=
  mkGame (stockfish g) (board g) s (last_ai_move g)
         (current_score g) (ai_move_scheduled g) (timer g) (running g).
Definition set_last_ai_move g (m : option Move) : Game Board :=
  mkGame (stockfish g) (board g) (selected_square g) m
         (current_score g) (ai_move_scheduled g) (timer g) (running g).
Definition set_current_score g (x : float) : Game Board :=
  mkGame (stockfish g) (board g) (selected_square g) (last_ai_move g)
         x (ai_move_scheduled g) (timer g) (running g).
Definition set_ai_move_scheduled g (f : bool) : Game Board :=
  mkGame (stockfish g) (board g) (selected_square g) (last_ai_move g)
         (current_score g) f (timer g) (running g).
Definition set_running g (f : bool) : Game Board :=
  mkGame (stockfish g) (board g) (selected_square g) (last_ai_move g)
         (current_score g) (ai_move_scheduled g) (timer g) f.

(** [pygame.time.set_timer(AI_MOVE_EVENT, ms)]: [0] stops the timer. *)
Definition set_timer g (ms : Z) : Game Board :=
  mkGame (stockfish g) (board g) (selected_square g) (last_ai_move g)
         (current_score g) (ai_move_scheduled g)
         (if ms =? 0 then None else Some ms) (running g).

(** [ChessGame.__init__]; [sf] tells whether Stockfish could be started. *)
Definition init (sf : bool) : Game Board :=
  mkGame sf new_board None None 0%float false None true.

Definition M := Eff (Query Board).

(** [ChessGame.get_evaluation_score] *)
Definition get_evaluation_score adv g : M float :=
  if stockfish g then
    do _ <- tell (QEvaluation (board g));
    match get_evaluation adv (board g) with
    | Raise _ => ret 0%float
    | Ok evaluation =>
        do raw_score <- lift (raw_score evaluation);
        ret (clamp raw_score)
    end
  else ret 0%float.

(** [ChessGame.schedule_ai_move] *)
Definition schedule_ai_move (delay_ms : Z) g : Game Board :=
  set_ai_move_scheduled (set_timer g delay_ms) true.

(** [ChessGame.ai_move] *)
Definition ai_move adv g : M (Game Board) :=
  if stockfish g then
    do _ <- tell (QBestMove (board g));
    let best_uci :=
      match get_best_move adv (board g) with
      | Raise _ => None
      | Ok r => r
      end in
    match best_uci with
    | Some uci =>
        if negb (String.eqb uci "") then
          match from_uci uci with
          | None => throw (InvalidMoveError uci)
          | Some move =>
              if is_legal (board g) move then
                ret (set_last_ai_move (set_board g (push (board g) move)) (Some move))
              else ret g
          end
        else ret g
    | None => ret g
    end
  else ret g.

(** [self.current_score = self.get_evaluation_score()] *)
Definition refresh_score adv g : M (Game Board) :=
  do score <- get_evaluation_score adv g;
  ret (set_current_score g score).

(** The body of the [for event in pygame.event.get()] loop of [run].
    [update_display] only reads the game and is left out. *)
Definition handle_event adv (event : Event) g : M (Game Board) :=
  match event with
  | QUIT => ret (set_running g false)
  | MOUSEBUTTONDOWN pos =>
      if negb (is_game_over (board g)) then
        if on_board_area pos then
          let square_clicked := pixel_to_square pos in
          match selected_square g with
          | None =>
              match piece_at (board g) square_clicked with
              | Some piece =>
                  if Color_eqb (color piece) (turn (board g))
                  then ret (set_selected_square g (Some square_clicked))
                  else ret g
              | None => ret g
              end
          | Some selected =>
              let move := mkMove selected square_clicked None None in
              if is_legal (board g) move then
                let g := set_board g (push (board g) move) in
                let g := set_selected_square g None in
                do g <- refresh_score adv g;
                if negb (is_game_over (board g))
                then ret (schedule_ai_move 3000 g)
                else ret g
              else ret (set_selected_square g None)
          end
        else ret g
      else ret g
  | KEYDOWN key =>
      if key =? K_u then
        if (1 <=? Z.of_nat (length (move_stack (board g)))) then
          let g := set_board g (pop (board g)) in
          refresh_score adv g
        else ret g
      else if key =? K_r then
        let g := set_board g new_board in
        let g := set_selected_square g None in
        let g := set_last_ai_move g None in
        refresh_score adv g
      else ret g
  | AI_MOVE_EVENT =>
      let g := set_timer g 0 in
      let g := set_ai_move_scheduled g false in
      if negb (is_game_over (board g)) then
        do g <- ai_move adv g;
        refresh_score adv g
      else ret g
  | OTHER => ret g
  end.

(** One pass of [for event in pygame.event.get()]; every event comes
    with the engine's answers at that moment. *)
Fixpoint process_events (events : list (Advisor Board * Event)) g : M (Game Board) :=
  match events with
  | [] => ret g
  | (adv, event) :: rest =>
      do g <- handle_event adv event g;
      process_events rest g
  end.

(** [while running: ...], over the batches of events that
    [pygame.event.get()] returns.  A pass ends with [update_display] and
    [clock.tick(30)], which leave the game as it is. *)
Fixpoint main_loop (frames : list (list (Advisor Board * Event))) g : M (Game Board) :=
  match frames with
  | [] => ret g
  | events :: rest =>
      if running g then
        do g <- process_events events g;
        main_loop rest g
      else ret g
  end.

(** [ChessGame.run] on a game built by [__init__]. *)
Definition run (adv0 : Advisor Board) (frames : list (list (Advisor Board * Event)))
    g : M (Game Board) :=
  do g <- refresh_score adv0 (set_running g true);
  main_loop frames g.

(** The states the loop passes through. *)
Inductive reachable : Game Board -> Prop :=
| reachable_start sf adv l g :
    refresh_score adv (set_running (init sf) true) = (l, Ok g) ->
    reachable g
| reachable_event g adv event l g' :
    reachable g ->
    handle_event adv event g = (l, Ok g') ->
    reachable g'.

(** The boards that arise in play: a fresh board, and a board on which a
    legal move was made while the game was not over. *)
Inductive played : Board -> Prop :=
| played_new : played new_board
| played_push b m :
    played b -> is_game_over b = false -> is_legal b m = true ->
    played (push b m).

(** An engine whose every call raises. *)
Definition raising adv : Prop :=
  (forall b, exists e, get_evaluation adv b = Raise e)
  /\ (forall b, exists e, get_best_move adv b = Raise e).

(** A countdown is pending. *)
Definition armed g : Prop :=
  ai_move_scheduled g = true /\ timer g <> None.

(** The next press on the board is read as the choice of a piece. *)
Definition awaiting_human_selection g : Prop :=
  is_game_over (board g) = false /\ selected_square g = None.

(** [-5.0 <= x <= 5.0] *)
Definition in_range (x : float) : Prop :=
  ((-5.0) <=? x)%float = true /\ (x <=? 5.0)%float = true.

End ChessGame.

(** ** A rules engine: the game of chess

    python-chess is a library that the program imports.  This module
    follows the behaviour of [chess.Board] and [chess.Move] on a standard
    board, as far as the program calls them: the pieces by square, the side
    to move, castling rights, the en passant square, the two move counters,
    and the stack of moves with the positions they were played from.  The
    properties of the game loop are proved for every [RulesEngine]; this one
    supplies the positions on which they are exercised, and its move
    generation is checked below against the known numbers of games from
    standard test positions. *)
Module Chess.

#[global] Instance Color_eq_dec : EqDecision Color.
Proof. solve_decision. Defined.
#[global] Instance PieceType_eq_dec : EqDecision PieceType.
Proof. solve_decision. Defined.
#[global] Instance Piece_eq_dec : EqDecision Piece.
Proof. solve_decision. Defined.
#[global] Instance Move_eq_dec : EqDecision Move.
Proof. solve_decision. Defined.

Record Position := mkPosition {
  pieces : gmap Z Piece;
  side : Color;
  castling_rights : list Z;      (* the rooks that may still castle *)
  ep_square : option Z;
  halfmove_clock : Z;
  fullmove_number : Z
}.

Record ChessBoard := mkBoard {
  position : Position;
  stack : list (Move * Position)  (* most recent move first *)
}.

Definition other (c : Color) : Color :=
  match c with White => Black | Black => White end.

Definition square_file (sq : Z) : Z := sq mod 8.
Definition square_rank (sq : Z) : Z := sq / 8.
Definition SQUARES : list Z := seqZ 0 64.

(** The square [df] files and [dr] ranks away, if it is on the board. *)
Definition offset (sq df dr : Z) : option Z :=
  let f := square_file sq + df in
  let r := square_rank sq + dr in
  if (0 <=? f) && (f <? 8) && (0 <=? r) && (r <? 8)
  then Some (r * 8 + f) else None.

Definition jumps (sq : Z) (deltas : list (Z * Z)) : list Z :=
  omap (fun d => offset sq (fst d) (snd d)) deltas.

(** The squares in one direction, up to and including the first piece. *)
Fixpoint ray (pl : gmap Z Piece) (sq df dr : Z) (n : nat) : list Z :=
  match n with
  | O => []
  | S n' =>
      match offset sq df dr with
      | None => []
      | Some t =>
          t :: match pl !! t with
               | Some _ => []
               | None => ray pl t df dr n'
               end
      end
  end.

Definition rays (pl : gmap Z Piece) (sq : Z) (dirs : list (Z * Z)) : list Z :=
  concat (map (fun d => ray pl sq (fst d) (snd d) 7) dirs).

Definition forward (c : Color) : Z :=
  match c with White => 1 | Black => -1 end.

Definition knight_deltas : list (Z * Z) :=
  [(1, 2); (2, 1); (2, -1); (1, -2); (-1, -2); (-2, -1); (-2, 1); (-1, 2)].
Definition rook_dirs : list (Z * Z) := [(1, 0); (-1, 0); (0, 1); (0, -1)].
Definition bishop_dirs : list (Z * Z) := [(1, 1); (1, -1); (-1, 1); (-1, -1)].

(** The squares attacked by piece [p] standing on [sq]. *)
Definition attacks (pl : gmap Z Piece) (sq : Z) (p : Piece) : list Z :=
  match piece_type p with
  | Pawn => jumps sq [(-1, forward (color p)); (1, forward (color p))]
  | Knight => jumps sq knight_deltas
  | King => jumps sq (rook_dirs ++ bishop_dirs)
  | Rook => rays pl sq rook_dirs
  | Bishop => rays pl sq bishop_dirs
  | Queen => rays pl sq (rook_dirs ++ bishop_dirs)
  end.

Definition mem (x : Z) (l : list Z) : bool := existsb (Z.eqb x) l.

Definition is_attacked_by (pl : gmap Z Piece) (c : Color) (sq : Z) : bool :=
  existsb (fun s =>
             match pl !! s with
             | Some p => if Color_eqb (color p) c then mem sq (attacks pl s p) else false
             | None => false
             end) SQUARES.

Definition is_king_of (c : Color) (o : option Piece) : bool :=
  match o with
  | Some (mkPiece King c') => Color_eqb c c'
  | _ => false
  end.

Definition in_check (pl : gmap Z Piece) (c : Color) : bool :=
  existsb (fun s => if is_king_of c (pl !! s) then is_attacked_by pl (other c) s else false)
          SQUARES.

Definition empty (pl : gmap Z Piece) (sq : Z) : bool :=
  match pl !! sq with Some _ => false | None => true end.

Definition has_color (pl : gmap Z Piece) (c : Color) (sq : Z) : bool :=
  match pl !! sq with Some p => Color_eqb (color p) c | None => false end.

Definition opt_eqb (a : option Z) (b : Z) : bool :=
  match a with Some x => x =? b | None => false end.

Definition pawn_move_ok (pos : Position) (from to : Z) (prom : option PieceType) : bool :=
  let pl := pieces pos in
  let c := side pos in
  let d := forward c in
  let back := match c with White => 7 | Black => 0 end in
  let start := match c with White => 1 | Black => 6 end in
  let prom_ok :=
    if square_rank to =? back
    then match prom with
         | Some Queen | Some Rook | Some Bishop | Some Knight => true
         | _ => false
         end
    else match prom with None => true | Some _ => false end in
  let single := opt_eqb (offset from 0 d) to && empty pl to in
  let double := (square_rank from =? start) && opt_eqb (offset from 0 (2 * d)) to
                && empty pl (from + 8 * d) && empty pl to in
  let capture := mem to (jumps from [(-1, d); (1, d)])
                 && (has_color pl (other c) to
                     || (opt_eqb (ep_square pos) to && empty pl to)) in
  prom_ok && (single || double || capture).

(** Castling, written as the king's move of two files. *)
Definition castling_ok (pos : Position) (from to : Z) : bool :=
  let pl := pieces pos in
  let c := side pos in
  let home := match c with White => 4 | Black => 60 end in
  let free := forallb (empty pl) in
  let safe := forallb (fun s => negb (is_attacked_by pl (other c) s)) in
  if negb (from =? home) then false
  else if to =? home + 2 then
    if mem (home + 3) (castling_rights pos) && free [home + 1; home + 2]
    then safe [home; home + 1; home + 2] else false
  else if to =? home - 2 then
    if mem (home - 4) (castling_rights pos) && free [home - 1; home - 2; home - 3]
    then safe [home; home - 1; home - 2] else false
  else false.

Definition is_pawn (p : Piece) : bool :=
  match piece_type p with Pawn => true | _ => false end.
Definition is_king (p : Piece) : bool :=
  match piece_type p with King => true | _ => false end.

(** A move is false when it is the null move [0000]. *)
Definition is_null (m : Move) : bool :=
  (from_square m =? 0) && (to_square m =? 0)
  && match promotion m, drop m with None, None => true | _, _ => false end.

Definition king_on (pl : gmap Z Piece) (sq : Z) : bool :=
  match pl !! sq with Some p => is_king p | None => false end.

(** [Board._from_chess960] on a standard board: castling written as the
    king taking its own rook is read as the king's move of two files. *)
Definition from_chess960 (pl : gmap Z Piece) (m : Move) : Move :=
  let retarget := fun to => mkMove (from_square m) to (promotion m) (drop m) in
  if (from_square m =? 4) && king_on pl 4 then
    if to_square m =? 7 then retarget 6
    else if to_square m =? 0 then retarget 2 else m
  else if (from_square m =? 60) && king_on pl 60 then
    if to_square m =? 63 then retarget 62
    else if to_square m =? 56 then retarget 58 else m
  else m.

(** [Board.is_pseudo_legal] *)
Definition is_pseudo_legal (pos : Position) (m : Move) : bool :=
  let pl := pieces pos in
  if is_null m then false
  else
    match drop m, pl !! from_square m with
    | None, Some p =>
        if negb (Color_eqb (color p) (side pos)) then false
        else if match promotion m with
                | Some _ =>
                    negb (is_pawn p)
                    || negb (square_rank (to_square m)
                             =? match side pos with White => 7 | Black => 0 end)
                | None => false
                end then false
        else if (if is_king p
                 then castling_ok pos (from_square (from_chess960 pl m))
                                      (to_square (from_chess960 pl m))
                 else false) then true
        else if has_color pl (side pos) (to_square m) then false
        else if is_pawn p
        then pawn_move_ok pos (from_square m) (to_square m) (promotion m)
        else mem (to_square m) (attacks pl (from_square m) p)
    | _, _ => false
    end.

Definition relocate (pl : gmap Z Piece) (from to : Z) : gmap Z Piece :=
  match pl !! from with
  | Some p => <[to := p]> (delete from pl)
  | None => pl
  end.

(** The position after move [m]. *)
Definition apply_move (pos : Position) (m : Move) : Position :=
  let pl := pieces pos in
  let from := from_square m in
  let to := to_square m in
  match pl !! from with
  | None => pos
  | Some p =>
      let c := side pos in
      let d := forward c in
      let captured := negb (empty pl to) in
      let en_passant := is_pawn p && negb (square_file from =? square_file to)
                        && negb captured in
      let pl := delete from pl in
      let pl := if en_passant then delete (to - 8 * d) pl else pl in
      let placed := match promotion m with
                    | Some t => mkPiece t c
                    | None => p
                    end in
      let pl := <[to := placed]> pl in
      let pl := if is_king p && (to - from =? 2) then relocate pl (to + 1) (to - 1)
                else if is_king p && (to - from =? -2) then relocate pl (to - 2) (to + 1)
                else pl in
      let rights :=
        List.filter (fun r => negb (r =? from) && negb (r =? to)
                              && negb (is_king p
                                       && (square_rank r
                                           =? match c with White => 0 | Black => 7 end)))
                    (castling_rights pos) in
      mkPosition pl (other c) rights
        (if is_pawn p && (to - from =? 16 * d) then Some (from + 8 * d) else None)
        (if is_pawn p || captured then 0 else halfmove_clock pos + 1)
        (match c with Black => fullmove_number pos + 1 | White => fullmove_number pos end)
  end.

(** [move in board.legal_moves]: pseudo-legal, and the mover's king is not
    left in check. *)
Definition legal (pos : Position) (m : Move) : bool :=
  if is_pseudo_legal pos m
  then negb (in_check (pieces (apply_move pos (from_chess960 (pieces pos) m)))
                      (side pos))
  else false.

(** Every move that can be legal in some position, promotions to a queen
    standing for the four promotions. *)
Definition candidates : list Move :=
  f ← SQUARES; t ← SQUARES; [mkMove f t None None; mkMove f t (Some Queen) None].

Definition has_legal_move (pos : Position) : bool :=
  existsb (legal pos) candidates.

Definition count_pieces (pl : gmap Z Piece) (P : Z -> Piece -> bool) : nat :=
  length (List.filter (fun s => match pl !! s with Some p => P s p | None => false end)
                      SQUARES).

Definition is_type (t : PieceType) (p : Piece) : bool :=
  bool_decide (piece_type p = t).

Definition dark (s : Z) : bool := Z.even (square_file s + square_rank s).

Definition has_insufficient_material (pl : gmap Z Piece) (c : Color) : bool :=
  let none := fun P => (count_pieces pl P =? 0)%nat in
  let mine := fun t => fun (_ : Z) p => Color_eqb (color p) c && is_type t p in
  if negb (none (fun s p => mine Pawn s p || mine Rook s p || mine Queen s p)) then false
  else if negb (none (mine Knight)) then
    (count_pieces pl (fun _ p => Color_eqb (color p) c) <=? 2)%nat
    && none (fun _ p => Color_eqb (color p) (other c)
                        && negb (is_type King p) && negb (is_type Queen p))
  else if negb (none (mine Bishop)) then
    (none (fun s p => is_type Bishop p && dark s)
     || none (fun s p => is_type Bishop p && negb (dark s)))
    && none (fun _ p => is_type Pawn p) && none (fun _ p => is_type Knight p)
  else true.

#[global] Instance Position_eq_dec : EqDecision Position.
Proof. solve_decision. Defined.

(** A pawn can capture en passant. *)
Definition has_legal_en_passant (pos : Position) : bool :=
  match ep_square pos with
  | Some e =>
      existsb (fun f =>
                 match pieces pos !! f with
                 | Some p =>
                     if is_pawn p && negb (square_file f =? square_file e)
                     then legal pos (mkMove f e None None) else false
                 | None => false
                 end) SQUARES
  | None => false
  end.

(** The same pieces, side to move and castling rights, and the same en
    passant square where a capture en passant is possible. *)
Definition same_position (p q : Position) : bool :=
  bool_decide (pieces p = pieces q) && Color_eqb (side p) (side q)
  && bool_decide (castling_rights p = castling_rights q)
  && bool_decide ((if has_legal_en_passant p then ep_square p else None)
                  = (if has_legal_en_passant q then ep_square q else None)).

Definition occurrences (b : ChessBoard) : nat :=
  S (length (List.filter (same_position (position b)) (map snd (stack b)))).

(** [Board.is_game_over()]: checkmate, stalemate, insufficient material,
    seventy-five moves without progress, fivefold repetition. *)
Definition game_over (b : ChessBoard) : bool :=
  let pos := position b in
  negb (has_legal_move pos)
  || (has_insufficient_material (pieces pos) White
      && has_insufficient_material (pieces pos) Black)
  || (150 <=? halfmove_clock pos)
  || (5 <=? occurrences b)%nat.

Definition back_rank : list PieceType :=
  [Rook; Knight; Bishop; Queen; King; Bishop; Knight; Rook].

Definition starting_pieces : gmap Z Piece :=
  list_to_map
    (zip (seqZ 0 8) (map (fun t => mkPiece t White) back_rank)
     ++ map (fun s => (s, mkPiece Pawn White)) (seqZ 8 8)
     ++ map (fun s => (s, mkPiece Pawn Black)) (seqZ 48 8)
     ++ zip (seqZ 56 8) (map (fun t => mkPiece t Black) back_rank)).

Definition starting_position : Position :=
  mkPosition starting_pieces White [0; 7; 56; 63] None 0 1.

Definition starting_board : ChessBoard := mkBoard starting_position [].

(** [Board.push]: the move is kept on the stack in its standard spelling,
    beside the position it was played from. *)
Definition board_push (b : ChessBoard) (m : Move) : ChessBoard :=
  let m := from_chess960 (pieces (position b)) m in
  mkBoard (apply_move (position b) m) ((m, position b) :: stack b).

Definition board_pop (b : ChessBoard) : ChessBoard :=
  match stack b with
  | (_, pos) :: rest => mkBoard pos rest
  | [] => b
  end.

(** ["a1"] to [0], ..., ["h8"] to [63] *)
Definition parse_square (f r : ascii) : option Z :=
  let fi := Z.of_nat (nat_of_ascii f) - 97 in
  let ri := Z.of_nat (nat_of_ascii r) - 49 in
  if (0 <=? fi) && (fi <? 8) && (0 <=? ri) && (ri <? 8)
  then Some (ri * 8 + fi) else None.

(** The index of a letter in [PIECE_SYMBOLS]. *)
Definition parse_piece (c : ascii) : option PieceType :=
  match c with
  | "p"%char => Some Pawn
  | "n"%char => Some Knight
  | "b"%char => Some Bishop
  | "r"%char => Some Rook
  | "q"%char => Some Queen
  | "k"%char => Some King
  | _ => None
  end.

Definition lower (c : ascii) : ascii :=
  let n := nat_of_ascii c in
  if (65 <=? n)%nat && (n <=? 90)%nat then ascii_of_nat (n + 32) else c.

(** [chess.Move.from_uci] *)
Definition parse_uci (uci : string) : option Move :=
  if String.eqb uci "0000" then Some (mkMove 0 0 None None)
  else
    match String.list_ascii_of_string uci with
    | [a; b; c; d] =>
        if Ascii.eqb b "@" then
          match parse_piece (lower a), parse_square c d with
          | Some t, Some s => Some (mkMove s s None (Some t))
          | _, _ => None
          end
        else
          match parse_square a b, parse_square c d with
          | Some f, Some t => if f =? t then None else Some (mkMove f t None None)
          | _, _ => None
          end
    | [a; b; c; d; e] =>
        match parse_square a b, parse_square c d, parse_piece e with
        | Some f, Some t, Some p =>
            if f =? t then None else Some (mkMove f t (Some p) None)
        | _, _, _ => None
        end
    | _ => None
    end.

(** The pieces of the first field of a FEN record, read from rank 8 down. *)
Definition piece_of_symbol (c : ascii) : option Piece :=
  match parse_piece (lower c) with
  | Some t => Some (mkPiece t (if (nat_of_ascii c <? 97)%nat then White else Black))
  | None => None
  end.

Fixpoint placement (l : list ascii) (r f : Z) (acc : gmap Z Piece) : gmap Z Piece :=
  match l with
  | [] => acc
  | c :: l' =>
      if Ascii.eqb c "/" then placement l' (r - 1) 0 acc
      else match piece_of_symbol c with
           | Some p => placement l' r (f + 1) (<[r * 8 + f := p]> acc)
           | None => placement l' r (f + (Z.of_nat (nat_of_ascii c) - 48)) acc
           end
  end.

Definition position_of (fen : string) (c : Color) (rights : list Z)
    (ep : option Z) : Position :=
  mkPosition (placement (String.list_ascii_of_string fen) 7 0 ∅) c rights ep 0 1.

(** The legal moves of a position, each in its standard spelling. *)
Definition legal_moves (pos : Position) : list Move :=
  List.filter
    (fun m => if legal pos m then bool_decide (from_chess960 (pieces pos) m = m) else false)
    (f ← SQUARES; t ← SQUARES;
     p ← [None; Some Queen; Some Rook; Some Bishop; Some Knight];
     [mkMove f t p None]).

(** The number of games of [n] moves that start from a position. *)
Fixpoint perft (n : nat) (pos : Position) : nat :=
  match n with
  | O => 1%nat
  | S n' => list_sum (map (fun m => perft n' (apply_move pos m)) (legal_moves pos))
  end.

#[global] Instance rules : RulesEngine := {|
  Board := ChessBoard;
  new_board := starting_board;
  turn := fun b => side (position b);
  piece_at := fun b sq => pieces (position b) !! sq;
  is_legal := fun b m => legal (position b) m;
  push := board_push;
  pop := board_pop;
  move_stack := fun b => reverse (map fst (stack b));
  is_game_over := game_over;
  from_uci := parse_uci
|}.

End Chess.


(** ** Engine answers used in the examples *)

(** The dictionary [{"type": ty, "value": v}]. *)
Definition evaluation_dict (ty : string) (v : Z) : gmap string PyVal :=
  <["type" := PyStr ty]> (<["value" := PyInt v]> ∅).

(** An engine that answers every call with the same evaluation and the same
    best move. *)
Definition engine {B} (evaluation : gmap string PyVal)
    (best : option string) : Advisor B :=
  {| get_evaluation := fun _ => Ok evaluation;
     get_best_move := fun _ => Ok best |}.

(** An engine whose every call raises. *)
Definition broken_engine {B} : Advisor B :=
  {| get_evaluation := fun _ => Raise EngineError;
     get_best_move := fun _ => Raise EngineError |}.

(** A centipawn value whose hundredth the clamp leaves as it is. *)
Definition cp_unclamped (v : Z) : bool :=
  match float_of_int v with
  | Ok f => PrimFloat.Leibniz.eqb (clamp (f / 100)%float) (f / 100)%float
  | Raise _ => false
  end.


(** ** Games played in the examples *)

(** A press in the middle of a square. *)
Definition press (sq : Z) : Event :=
  MOUSEBUTTONDOWN (fst (square_to_pixel sq) + 25, snd (square_to_pixel sq) + 25).

(** An engine that finds the position worth 25 centipawns and has no move,
    and one that answers with the move [uci]. *)
Definition quiet : Advisor Chess.ChessBoard := engine (evaluation_dict "cp" 25) None.
Definition replying (uci : string) : Advisor Chess.ChessBoard :=
  engine (evaluation_dict "cp" 25) (Some uci).

(** [run] up to the end of the given events, Stockfish present. *)
Definition play (events : list (Advisor Chess.ChessBoard * Event))
    : Eff (Query Chess.ChessBoard) (Game Chess.ChessBoard) :=
  do g <- refresh_score quiet (set_running (init true) true);
  process_events events g.

(** The game after these events. *)
Definition after (events : list (Advisor Chess.ChessBoard * Event))
    : Game Chess.ChessBoard :=
  match result (play events) with
  | Ok g => g
  | Raise _ => init true
  end.

(** The human plays e2-e4; the countdown runs. *)
Definition opening : list (Advisor Chess.ChessBoard * Event) :=
  [(quiet, press 12); (quiet, press 28)].

(** ... and, before the engine answers, presses on the black pawn on e7. *)
Definition opening_then_press : list (Advisor Chess.ChessBoard * Event) :=
  opening ++ [(quiet, press 52)].

(** 1. f3 e5 2. g4 Qh4 mate, the engine playing Black. *)
Definition fools_mate : list (Advisor Chess.ChessBoard * Event) :=
  [(quiet, press 13); (quiet, press 21); (replying "e7e5", AI_MOVE_EVENT);
   (quiet, press 14); (quiet, press 30); (replying "d8h4", AI_MOVE_EVENT)].

(** The same game, the human pressing on the black queen on d8 while the
    last countdown runs. *)
Definition fools_mate_with_press : list (Advisor Chess.ChessBoard * Event) :=
  [(quiet, press 13); (quiet, press 21); (replying "e7e5", AI_MOVE_EVENT);
   (quiet, press 14); (quiet, press 30); (quiet, press 59);
   (replying "d8h4", AI_MOVE_EVENT)].


(** A game in which White has chosen the pawn on a7, one step from its
    last rank. *)
Definition pawn_on_seventh : Game Chess.ChessBoard :=
  mkGame true
    (Chess.mkBoard (Chess.position_of "4k3/P7/8/8/8/8/8/4K3" White [] None) [])
    (Some 48) None 0%float false None true.


(** ** Assets and display

    What the program draws, as the list of the calls it makes on the
    screen.  The font enters by the size of a rendered text, the formatting
    of the score ([f"{score:+.1f}"]) and [board.result()] enter as
    functions. *)

Definition RGB : Type := Z * Z * Z.
Definition WHITE : RGB := (255, 255, 255).
Definition BLACK : RGB := (0, 0, 0).
Definition GRAY : RGB := (128, 128, 128).
Definition GREEN : RGB := (0, 200, 0).
Definition RED : RGB := (200, 0, 0).
Definition YELLOW : RGB := (255, 255, 0).
Definition ORANGE : RGB := (255, 165, 0).

Definition WIDTH : Z := 800.
Definition HEIGHT : Z := 400.
Definition BAR_WIDTH : Z := 60.

Inductive Surface :=
| Image (path : string) (size : Z * Z)    (* an image file, loaded and scaled *)
| Plain (size : Z * Z) (color : RGB)      (* [pygame.Surface(size)], filled *)
| Rendered (text : string) (color : RGB). (* [font.render(text, True, color)] *)

(** A rectangle [(x, y, w, h)]. *)
Definition Rect : Type := Z * Z * Z * Z.

Inductive DrawOp :=
| Fill (color : RGB)                              (* [screen.fill] *)
| DrawRect (color : RGB) (rect : Rect) (width : Z)  (* [pygame.draw.rect] *)
| Blit (source : Surface) (dest : Z * Z)          (* [screen.blit] *)
| Flip                                            (* [pygame.display.flip] *)
| Pump.                                           (* [pygame.event.pump] *)

(** The keys of the images, in the order of the two loops of
    [load_images]. *)
Definition image_keys : list string :=
  color_prefix ← ["w"; "b"];
  piece ← ["P"; "N"; "B"; "R"; "Q"; "K"];
  [String.append color_prefix piece].

(** [ChessGame.load_images]: [sep] is the separator of [os.path.join], and
    [loads path] tells whether [pygame.image.load(path)] and the scaling
    succeed; when they raise, a gray surface stands in. *)
Definition load_images (sep : string) (loads : string -> bool) : gmap string Surface :=
  fold_left
    (fun images key =>
       let image_path :=
         String.append "assets" (String.append sep (String.append key ".png")) in
       if loads image_path
       then <[key := Image image_path (SQUARE_SIZE, SQUARE_SIZE)]> images
       else <[key := Plain (SQUARE_SIZE, SQUARE_SIZE) GRAY]> images)
    image_keys ∅.

(** [str.upper] on ASCII text. *)
Definition upper_ascii (c : ascii) : ascii :=
  let n := nat_of_ascii c in
  if (97 <=? n)%nat && (n <=? 122)%nat then ascii_of_nat (n - 32) else c.

Fixpoint upper (s : string) : string :=
  match s with
  | EmptyString => EmptyString
  | String c rest => String (upper_ascii c) (upper rest)
  end.

(** [chess.Piece.symbol]: the letter of the piece, a capital for White. *)
Definition symbol (piece : Piece) : string :=
  let letter := match piece_type piece with
                | Pawn => "p" | Knight => "n" | Bishop => "b"
                | Rook => "r" | Queen => "q" | King => "k"
                end in
  match color piece with White => upper letter | Black => letter end.

(** [ChessGame.get_piece_image] *)
Definition get_piece_image (images : gmap string Surface) (piece : Piece)
    : option Surface :=
  let color_prefix := match color piece with White => "w" | Black => "b" end in
  let piece_type := upper (symbol piece) in
  images !! String.append color_prefix piece_type.

(** The rectangle [rect] of [highlight_square]. *)
Definition square_rect (square : Z) : Rect :=
  let col := square mod 8 in
  let row := 7 - square / 8 in
  (col * SQUARE_SIZE, row * SQUARE_SIZE, SQUARE_SIZE, SQUARE_SIZE).

(** [ChessGame.highlight_square] *)
Definition highlight_square (square : Z) (color : RGB) (width : Z) : DrawOp :=
  DrawRect color (square_rect square) width.

(** The squares of the board, as [draw_chessboard] paints them. *)
Definition board_squares : list DrawOp :=
  row ← seqZ 0 8;
  col ← seqZ 0 8;
  [DrawRect (if (row + col) mod 2 =? 0 then WHITE else GRAY)
            (col * SQUARE_SIZE, row * SQUARE_SIZE, SQUARE_SIZE, SQUARE_SIZE) 0].

(** [int(x)] for a float: towards zero; [None] when it raises (infinities
    and NaN). *)
Definition py_int (x : float) : option Z :=
  match Prim2SF x with
  | S754_zero _ => Some 0
  | S754_finite s m e =>
      let a := if 0 <=? e then Zpos m * 2 ^ e else Zpos m / 2 ^ (- e) in
      Some (if s then - a else a)
  | S754_infinity _ | S754_nan => None
  end.

(** The pixel [(x, y)] lies in the rectangle. *)
Definition covers (rect : Rect) (x y : Z) : Prop :=
  let '(rx, ry, w, h) := rect in rx <= x < rx + w /\ ry <= y < ry + h.

(** The rectangle lies in the window. *)
Definition on_screen (rect : Rect) : Prop :=
  let '(rx, ry, w, h) := rect in
  0 <= rx /\ 0 <= ry /\ 0 <= w /\ 0 <= h /\ rx + w <= WIDTH /\ ry + h <= HEIGHT.

Section Display.
Context `{R : RulesEngine}.
Variable text_size : string -> Z * Z.
Variable format_score : float -> string.
Variable result_text_of : Board -> string.

Implicit Types (g : Game Board) (images : gmap string Surface).

(** The pieces, as [draw_chessboard] draws them over the squares of
    [chess.SQUARES]. *)
Definition board_pieces images (b : Board) : list DrawOp :=
  sq ← seqZ 0 64;
  match piece_at b sq with
  | Some piece =>
      let col := sq mod 8 in
      let row := 7 - sq / 8 in
      match get_piece_image images piece with
      | Some image => [Blit image (col * SQUARE_SIZE, row * SQUARE_SIZE)]
      | None => []
      end
  | None => []
  end.

(** [ChessGame.draw_chessboard] *)
Definition draw_chessboard images g : list DrawOp :=
  board_squares
  ++ match selected_square g with
     | Some square => [highlight_square square YELLOW 3]
     | None => []
     end
  ++ match last_ai_move g with
     | Some move => [highlight_square (from_square move) ORANGE 3;
                     highlight_square (to_square move) ORANGE 3]
     | None => []
     end
  ++ board_pieces images (board g).

(** [ChessGame.draw_evaluation_bar]; [None] when [int] raises. *)
Definition draw_evaluation_bar (score : float) : option (list DrawOp) :=
  let bar_x := BOARD_SIZE in
  let normalized := ((score + 5.0) / 10.0)%float in
  match py_int (normalized * 400)%float with
  | None => None
  | Some bar_height =>
      let bar_color := if (0 <=? score)%float then GREEN else RED in
      let bar_y := HEIGHT - bar_height in
      let eval_surf := Rendered (format_score score) WHITE in
      let text_x := bar_x + BAR_WIDTH / 2 - fst (text_size (format_score score)) / 2 in
      let text_y := HEIGHT / 2 - snd (text_size (format_score score)) / 2 in
      Some [DrawRect BLACK (bar_x, 0, BAR_WIDTH, HEIGHT) 0;
            DrawRect bar_color (bar_x + 10, bar_y, BAR_WIDTH - 20, bar_height) 0;
            Blit (Rendered "White" WHITE) (bar_x + 5, 5);
            Blit (Rendered "Black" WHITE) (bar_x + 5, HEIGHT - 25);
            Blit eval_surf (text_x, text_y)]
  end.

(** [ChessGame.update_display] *)
Definition update_display images g : option (list DrawOp) :=
  match draw_evaluation_bar (current_score g) with
  | None => None
  | Some bar =>
      Some ([Fill BLACK]
            ++ draw_chessboard images g
            ++ bar
            ++ (if is_game_over (board g)
                then [Blit (Rendered (String.append "Game Over! Result: "
                                        (result_text_of (board g))) WHITE)
                           (10, BOARD_SIZE + 10)]
                else [])
            ++ [Flip; Pump])
  end.

End Display.

(** The move takes a pawn to the last rank of its side, where the rules
    of chess want a promotion. *)
Definition reaches_last_rank `{R : RulesEngine} (b : Board) (m : Move) : Prop :=
  exists piece,
    piece_at b (from_square m) = Some piece
    /\ piece_type piece = Pawn
    /\ to_square m / 8 = match color piece with White => 7 | Black => 0 end.

(** [p] holds on the [n] integers from [v] on. *)
Fixpoint all_from (n : nat) (v : Z) (p : Z -> bool) : bool :=
  match n with
  | O => true
  | S n => if p v then all_from n (v + 1) p else false
  end.

(** The bar of [draw_evaluation_bar] for the score of an evaluation of [v]
    centipawns, against the exact height [(v + 500) * 2 / 5] of the bar
    between its two ends, and its colour against the sign of [v]. *)
Definition bar_check (v : Z) : bool :=
  match float_of_int v with
  | Ok f =>
      let score := clamp (f / 100) in
      match py_int ((score + 5.0) / 10.0 * 400)%float with
      | Some bar_height =>
          if Bool.eqb (0 <=? score)%float (0 <=? v) then
            if v <=? -500 then bar_height =? 0
            else if 500 <=? v then bar_height =? 400
            else (0 <=? bar_height)
                 && ((v + 500) * 2 / 5 - 1 <=? bar_height)
                 && (bar_height <=? (v + 500) * 2 / 5)
          else false
      | None => false
      end
  | Raise _ => false
  end.


(** * Properties *)

(** ** The monad *)

Lemma bind_Ok {Q A B} (m : Eff Q A) (k : A -> Eff Q B) l b :
  bind m k = (l, Ok b) ->
  exists l1 a l2, m = (l1, Ok a) /\ k a = (l2, Ok b) /\ l = l1 ++ l2.
Proof.
  unfold bind. destruct m as [l1 [a | e]]; [| discriminate].
  destruct (k a) as [l2 r] eqn:Hk. intros H. inversion H; subst.
  exists l1, a, l2. auto.
Qed.

Lemma bind_ret_l {Q A B} (a : A) (k : A -> Eff Q B) : bind (ret a) k = k a.
Proof. unfold bind, ret. destruct (k a). reflexivity. Qed.

Lemma ret_Ok {Q A} (a b : A) (l : list Q) : ret a = (l, Ok b) -> l = [] /\ a = b.
Proof. unfold ret. intros H. inversion H. auto. Qed.

(** ** Floats: the clamp *)

Lemma ltb_leb (x y : float) : (x <? y)%float = true -> (x <=? y)%float = true.
Proof.
  rewrite ltb_spec, leb_spec. unfold SFltb, SFleb.
  destruct (SFcompare (Prim2SF x) (Prim2SF y)) as [[ | | ] | ]; congruence.
Qed.

Lemma clamp_cases (x : float) :
  (clamp x = x /\ ((-5.0) <? x)%float = true /\ (x <? 5.0)%float = true)
  \/ clamp x = 5.0%float \/ clamp x = (-5.0)%float.
Proof.
  unfold clamp, py_min.
  destruct (x <? 5.0)%float eqn:Hhi.
  - unfold py_max. destruct ((-5.0) <? x)%float eqn:Hlo; auto.
  - right. left. reflexivity.
Qed.

Lemma in_range_clamp (x : float) : in_range (clamp x).
Proof.
  destruct (clamp_cases x) as [(-> & Hlo & Hhi) | [-> | ->]].
  - split; apply ltb_leb; assumption.
  - split; reflexivity.
  - split; reflexivity.
Qed.

Lemma in_range_0 : in_range 0%float.
Proof. split; reflexivity. Qed.

Lemma cp_unclamped_500 : forallb cp_unclamped (seqZ (-500) 1001) = true.
Proof. vm_compute. reflexivity. Qed.

(** Between -500 and 500 centipawns the clamp changes nothing. *)
Lemma clamp_small_cp (v : Z) :
  -500 <= v <= 500 ->
  exists f, float_of_int v = Ok f /\ clamp (f / 100)%float = (f / 100)%float.
Proof.
  intros Hv.
  assert (Hin : In v (seqZ (-500) 1001)).
  { apply list_elem_of_In, elem_of_seqZ. lia. }
  pose proof (proj1 (forallb_forall _ _) cp_unclamped_500 v Hin) as Hc.
  unfold cp_unclamped in Hc. destruct (float_of_int v) as [f | e]; [| discriminate].
  exists f. split; [reflexivity |]. apply Leibniz.eqb_spec. exact Hc.
Qed.

(** ** The evaluation retrieval *)

Section Evaluation.
Context `{R : RulesEngine}.
Implicit Types (adv : Advisor Board) (g : Game Board).

Lemma evaluation_no_engine adv g :
  stockfish g = false -> get_evaluation_score adv g = ([], Ok 0%float).
Proof. intros H. unfold get_evaluation_score. rewrite H. reflexivity. Qed.

Lemma evaluation_engine_error adv g e :
  stockfish g = true ->
  get_evaluation adv (board g) = Raise e ->
  get_evaluation_score adv g = ([QEvaluation (board g)], Ok 0%float).
Proof. intros H He. unfold get_evaluation_score. rewrite H, He. reflexivity. Qed.

(** What the engine's answer makes of [raw_score]. *)
Lemma raw_score_cp d v f :
  d !! "type" = Some (PyStr "cp") -> d !! "value" = Some (PyInt v) ->
  float_of_int v = Ok f ->
  raw_score d = Ok (f / 100)%float.
Proof.
  intros Ht Hv Hf. unfold raw_score, getitem, py_truediv.
  rewrite Ht. cbn. rewrite Hv. cbn. rewrite Hf. reflexivity.
Qed.

Lemma raw_score_mate d v :
  d !! "type" = Some (PyStr "mate") -> d !! "value" = Some (PyInt v) ->
  raw_score d = Ok (if 0 <? v then 5.0%float else (-5.0)%float).
Proof.
  intros Ht Hv. unfold raw_score, getitem, py_gt0.
  rewrite Ht. cbn. rewrite Hv. reflexivity.
Qed.

Lemma raw_score_other d ty :
  d !! "type" = Some ty -> py_eq_str ty "cp" = false -> py_eq_str ty "mate" = false ->
  raw_score d = Ok 0%float.
Proof.
  intros Ht Hc Hm. unfold raw_score, getitem. rewrite Ht. cbn. rewrite Hc, Hm.
  reflexivity.
Qed.

Lemma raw_score_missing_type d :
  d !! "type" = None -> raw_score d = Raise (KeyError "type").
Proof. intros Ht. unfold raw_score, getitem. rewrite Ht. reflexivity. Qed.

(** With an engine that answers, the score is the clamped raw score, and an
    exception from the raw score goes through. *)
Lemma evaluation_answer adv g d :
  stockfish g = true ->
  get_evaluation adv (board g) = Ok d ->
  get_evaluation_score adv g
  = ([QEvaluation (board g)],
     match raw_score d with
     | Ok raw => Ok (clamp raw)
     | Raise e => Raise e
     end).
Proof.
  intros H Hd. unfold get_evaluation_score. rewrite H, Hd. cbn.
  destruct (raw_score d); reflexivity.
Qed.

Lemma evaluation_in_range adv g l s :
  get_evaluation_score adv g = (l, Ok s) -> in_range s.
Proof.
  unfold get_evaluation_score.
  destruct (stockfish g).
  - intros H. apply bind_Ok in H as (l1 & [] & l2 & _ & H & _).
    destruct (get_evaluation adv (board g)) as [d | e].
    + apply bind_Ok in H as (? & raw & ? & _ & H & _).
      apply ret_Ok in H as [_ <-]. apply in_range_clamp.
    + apply ret_Ok in H as [_ <-]. apply in_range_0.
  - intros H. apply ret_Ok in H as [_ <-]. apply in_range_0.
Qed.

(** The evaluation retrieval asks the engine at most once, about the
    current position. *)
Lemma evaluation_calls adv g :
  calls (get_evaluation_score adv g) = []
  \/ calls (get_evaluation_score adv g) = [QEvaluation (board g)].
Proof.
  unfold get_evaluation_score, calls.
  destruct (stockfish g); [| left; reflexivity]. right.
  destruct (get_evaluation adv (board g)) as [d | e]; [| reflexivity].
  cbn. destruct (raw_score d); reflexivity.
Qed.

End Evaluation.

(** C4: the evaluation retrieval takes a centipawn score [v] to the raw
    score [v / 100], a forced mate to the raw score [5.0] or [-5.0] by the
    sign of its value, and returns the raw score clamped (from -500 to 500
    centipawns, [v / 100] itself); it returns [0.0] without an engine and on
    an engine error; and every score it returns lies between [-5.0] and
    [5.0]. *)
Theorem get_evaluation_score_spec `{R : RulesEngine}
    (adv : Advisor Board) (g : Game Board) :
  (stockfish g = false -> get_evaluation_score adv g = ([], Ok 0%float))
  /\ (forall e, stockfish g = true -> get_evaluation adv (board g) = Raise e ->
      get_evaluation_score adv g = ([QEvaluation (board g)], Ok 0%float))
  /\ (forall d raw, stockfish g = true -> get_evaluation adv (board g) = Ok d ->
      raw_score d = Ok raw ->
      get_evaluation_score adv g = ([QEvaluation (board g)], Ok (clamp raw)))
  /\ (forall d v f,
        d !! "type" = Some (PyStr "cp") -> d !! "value" = Some (PyInt v) ->
        float_of_int v = Ok f ->
        raw_score d = Ok (f / 100)%float)
  /\ (forall d v, stockfish g = true -> get_evaluation adv (board g) = Ok d ->
      d !! "type" = Some (PyStr "cp") -> d !! "value" = Some (PyInt v) ->
      -500 <= v <= 500 ->
      exists f, float_of_int v = Ok f
                /\ result (get_evaluation_score adv g) = Ok (f / 100)%float)
  /\ (forall d v,
        d !! "type" = Some (PyStr "mate") -> d !! "value" = Some (PyInt v) ->
        raw_score d = Ok (if 0 <? v then 5.0%float else (-5.0)%float)
        /\ clamp (if 0 <? v then 5.0%float else (-5.0)%float)
           = (if 0 <? v then 5.0%float else (-5.0)%float))
  /\ (forall l s, get_evaluation_score adv g = (l, Ok s) -> in_range s).
Proof.
  split; [apply evaluation_no_engine |].
  split; [intros e; apply evaluation_engine_error |].
  split.
  { intros d raw Hsf Hd Hraw. rewrite (evaluation_answer adv g d Hsf Hd), Hraw.
    reflexivity. }
  split; [intros d v f; apply raw_score_cp |].
  split.
  { intros d v Hsf Hd Ht Hv Hr. destruct (clamp_small_cp v Hr) as (f & Hf & Hc).
    exists f. split; [exact Hf |].
    rewrite (evaluation_answer adv g d Hsf Hd), (raw_score_cp d v f Ht Hv Hf).
    cbn. rewrite Hc. reflexivity. }
  split.
  { intros d v Ht Hv. split; [apply raw_score_mate; assumption |].
    destruct (0 <? v); reflexivity. }
  intros l s. apply evaluation_in_range.
Qed.

(** C4 at work on the starting position: 25 centipawns give 0.25, 1234
    centipawns give 5.0, a mate in 3 against the mover gives -5.0. *)
Lemma get_evaluation_score_spec_witness :
  result (get_evaluation_score (engine (evaluation_dict "cp" 25) None)
            (init (R := Chess.rules) true)) = Ok 0.25%float
  /\ result (get_evaluation_score (engine (evaluation_dict "cp" 1234) None)
               (init (R := Chess.rules) true)) = Ok 5.0%float
  /\ result (get_evaluation_score (engine (evaluation_dict "mate" (-3)) None)
               (init (R := Chess.rules) true)) = Ok (-5.0)%float
  /\ in_range 0.25%float.
Proof.
  pose proof (get_evaluation_score_spec (R := Chess.rules)) as H.
  split; [| split; [| split]].
  - destruct (H (engine (evaluation_dict "cp" 25) None) (init true))
      as (_ & _ & _ & _ & Hcp & _).
    destruct (Hcp (evaluation_dict "cp" 25) 25 eq_refl eq_refl eq_refl eq_refl
                ltac:(lia)) as (f & Hf & ->).
    vm_compute in Hf. injection Hf as <-. vm_compute. reflexivity.
  - destruct (H (engine (evaluation_dict "cp" 1234) None) (init true))
      as (_ & _ & Hcl & Hraw & _).
    rewrite (Hcl (evaluation_dict "cp" 1234) (1234 / 100)%float eq_refl eq_refl
               (Hraw (evaluation_dict "cp" 1234) 1234 1234%float
                     eq_refl eq_refl eq_refl)).
    vm_compute. reflexivity.
  - destruct (H (engine (evaluation_dict "mate" (-3)) None) (init true))
      as (_ & _ & Hcl & _ & _ & Hm & _).
    destruct (Hm (evaluation_dict "mate" (-3)) (-3) eq_refl eq_refl) as [Hraw Hc].
    rewrite (Hcl (evaluation_dict "mate" (-3)) _ eq_refl eq_refl Hraw).
    vm_compute. reflexivity.
  - destruct (H (engine (evaluation_dict "cp" 25) None) (init true))
      as (_ & _ & _ & _ & _ & _ & Hr).
    apply (Hr [QEvaluation Chess.starting_board]). vm_compute. reflexivity.
Defined.

(** ** Geometry *)

Lemma SQUARE_SIZE_50 : SQUARE_SIZE = 50.
Proof. reflexivity. Qed.

(** C5: a square of the board, taken to the top-left corner of its
    rectangle and back through the mapping of a click, is itself; and a
    corner of the board, taken to its square and back, is itself: on the
    squares 0..63 and the 64 corners, the two mappings are inverses. *)
Theorem square_pixel_round_trip :
  (forall s, 0 <= s <= 63 ->
     square_to_pixel s = (s mod 8 * SQUARE_SIZE, (7 - s / 8) * SQUARE_SIZE)
     /\ on_board_area (square_to_pixel s) = true
     /\ pixel_to_square (square_to_pixel s) = s
     /\ click_to_square (square_to_pixel s) = Some s)
  /\ (forall col row, 0 <= col < 8 -> 0 <= row < 8 ->
        0 <= pixel_to_square (col * SQUARE_SIZE, row * SQUARE_SIZE) <= 63
        /\ square_to_pixel (pixel_to_square (col * SQUARE_SIZE, row * SQUARE_SIZE))
           = (col * SQUARE_SIZE, row * SQUARE_SIZE)).
Proof.
  split.
  - intros s Hs.
    assert (Hback : pixel_to_square (square_to_pixel s) = s).
    { unfold pixel_to_square, square_to_pixel. rewrite SQUARE_SIZE_50.
      rewrite !Z.div_mul by lia. pose proof (Z.div_mod s 8). lia. }
    assert (Harea : on_board_area (square_to_pixel s) = true).
    { unfold on_board_area, square_to_pixel. rewrite SQUARE_SIZE_50.
      pose proof (Z.mod_pos_bound s 8).
      pose proof (Z.div_mod s 8).
      apply andb_true_intro. split; apply Z.ltb_lt; unfold BOARD_SIZE; lia. }
    split; [reflexivity |]. split; [exact Harea |]. split; [exact Hback |].
    unfold click_to_square. rewrite Harea, Hback. reflexivity.
  - intros col row Hc Hr. unfold pixel_to_square, square_to_pixel.
    rewrite SQUARE_SIZE_50. rewrite !Z.div_mul by lia.
    split; [lia |].
    replace ((7 - row) * 8 + col) with (col + (7 - row) * 8) by lia.
    rewrite Z.mod_add, Z.div_add by lia.
    rewrite Z.mod_small, Z.div_small by lia.
    f_equal; lia.
Qed.

(** C5 on the square e2 (12) and on the corner of column 4, row 6. *)
Lemma square_pixel_round_trip_witness :
  click_to_square (square_to_pixel 12) = Some 12
  /\ square_to_pixel (pixel_to_square (4 * SQUARE_SIZE, 6 * SQUARE_SIZE))
     = (4 * SQUARE_SIZE, 6 * SQUARE_SIZE).
Proof.
  split.
  - apply (proj1 square_pixel_round_trip 12). lia.
  - apply (proj2 square_pixel_round_trip 4 6); lia.
Defined.

(** A press on the board area at coordinates that are not negative falls on
    a square of the board. *)
Lemma pixel_to_square_range (pos : Z * Z) :
  0 <= fst pos -> 0 <= snd pos -> on_board_area pos = true ->
  0 <= pixel_to_square pos <= 63.
Proof.
  destruct pos as [x y]. cbn [fst snd]. intros Hx Hy Hb.
  unfold on_board_area, BOARD_SIZE in Hb.
  apply andb_prop in Hb as [Hx4 Hy4]. apply Z.ltb_lt in Hx4, Hy4.
  unfold pixel_to_square. rewrite SQUARE_SIZE_50.
  assert (0 <= x / 50 < 8)
    by (split; [apply Z.div_pos | apply Z.div_lt_upper_bound]; lia).
  assert (0 <= y / 50 < 8)
    by (split; [apply Z.div_pos | apply Z.div_lt_upper_bound]; lia).
  lia.
Qed.

(** ** The handlers *)

Section Handlers.
Context `{R : RulesEngine}.
Implicit Types (adv : Advisor Board) (g : Game Board).

Lemma refresh_score_Ok adv g l g' :
  refresh_score adv g = (l, Ok g') ->
  exists s, get_evaluation_score adv g = (l, Ok s)
            /\ g' = set_current_score g s /\ in_range s.
Proof.
  unfold refresh_score. intros H.
  apply bind_Ok in H as (l1 & s & l2 & Hs & Hr & ->).
  apply ret_Ok in Hr as [-> <-]. rewrite app_nil_r.
  exists s. split; [exact Hs |]. split; [reflexivity |].
  eapply evaluation_in_range; eassumption.
Qed.

Lemma refresh_score_returns adv g l s :
  get_evaluation_score adv g = (l, Ok s) ->
  refresh_score adv g = (l, Ok (set_current_score g s)).
Proof.
  intros H. unfold refresh_score. rewrite H. cbn. rewrite app_nil_r. reflexivity.
Qed.

(** The engine turn, case by case. *)
Lemma ai_move_no_engine adv g :
  stockfish g = false -> ai_move adv g = ([], Ok g).
Proof. intros H. unfold ai_move. rewrite H. reflexivity. Qed.

Lemma ai_move_engine_error adv g e :
  stockfish g = true -> get_best_move adv (board g) = Raise e ->
  ai_move adv g = ([QBestMove (board g)], Ok g).
Proof. intros H He. unfold ai_move. rewrite H, He. reflexivity. Qed.

Lemma ai_move_no_move adv g :
  stockfish g = true ->
  get_best_move adv (board g) = Ok None \/ get_best_move adv (board g) = Ok (Some "") ->
  ai_move adv g = ([QBestMove (board g)], Ok g).
Proof. intros H [He | He]; unfold ai_move; rewrite H, He; reflexivity. Qed.

Lemma ai_move_malformed adv g uci :
  stockfish g = true -> get_best_move adv (board g) = Ok (Some uci) ->
  uci <> "" -> from_uci uci = None ->
  ai_move adv g = ([QBestMove (board g)], Raise (InvalidMoveError uci)).
Proof.
  intros H He Hne Hp. unfold ai_move. rewrite H, He. cbn.
  destruct (String.eqb_spec uci ""); [contradiction |]. cbn. rewrite Hp. reflexivity.
Qed.

Lemma ai_move_illegal adv g uci move :
  stockfish g = true -> get_best_move adv (board g) = Ok (Some uci) ->
  uci <> "" -> from_uci uci = Some move -> is_legal (board g) move = false ->
  ai_move adv g = ([QBestMove (board g)], Ok g).
Proof.
  intros H He Hne Hp Hl. unfold ai_move. rewrite H, He. cbn.
  destruct (String.eqb_spec uci ""); [contradiction |]. cbn. rewrite Hp, Hl. reflexivity.
Qed.

Lemma ai_move_legal adv g uci move :
  stockfish g = true -> get_best_move adv (board g) = Ok (Some uci) ->
  uci <> "" -> from_uci uci = Some move -> is_legal (board g) move = true ->
  ai_move adv g
  = ([QBestMove (board g)],
     Ok (set_last_ai_move (set_board g (push (board g) move)) (Some move))).
Proof.
  intros H He Hne Hp Hl. unfold ai_move. rewrite H, He. cbn.
  destruct (String.eqb_spec uci ""); [contradiction |]. cbn. rewrite Hp, Hl. reflexivity.
Qed.

(** When the engine turn returns, it has either left the game as it was or
    played a legal move that the engine named, and recorded it. *)
Lemma ai_move_Ok adv g l g' :
  ai_move adv g = (l, Ok g') ->
  g' = g
  \/ exists uci move,
       stockfish g = true /\ get_best_move adv (board g) = Ok (Some uci)
       /\ from_uci uci = Some move /\ is_legal (board g) move = true
       /\ g' = set_last_ai_move (set_board g (push (board g) move)) (Some move).
Proof.
  unfold ai_move. destruct (stockfish g) eqn:Hsf.
  - intros H. apply bind_Ok in H as (l1 & [] & l2 & _ & H & _).
    destruct (get_best_move adv (board g)) as [[uci |] | e] eqn:Hb;
      try (apply ret_Ok in H as [_ <-]; left; reflexivity).
    destruct (negb (String.eqb uci "")).
    + destruct (from_uci uci) as [move |] eqn:Hp; [| discriminate].
      destruct (is_legal (board g) move) eqn:Hl.
      * apply ret_Ok in H as [_ <-]. right. exists uci, move. auto.
      * apply ret_Ok in H as [_ <-]. left. reflexivity.
    + apply ret_Ok in H as [_ <-]. left. reflexivity.
  - intros H. apply ret_Ok in H as [_ <-]. left. reflexivity.
Qed.

(** The events, one equation each. *)
Lemma handle_press_game_over adv pos g :
  is_game_over (board g) = true ->
  handle_event adv (MOUSEBUTTONDOWN pos) g = ([], Ok g).
Proof. intros H. cbn. rewrite H. reflexivity. Qed.

Lemma handle_press_outside adv pos g :
  on_board_area pos = false ->
  handle_event adv (MOUSEBUTTONDOWN pos) g = ([], Ok g).
Proof. intros H. cbn. rewrite H. destruct (negb _); reflexivity. Qed.

Lemma handle_first_press adv pos g :
  is_game_over (board g) = false -> on_board_area pos = true ->
  selected_square g = None ->
  handle_event adv (MOUSEBUTTONDOWN pos) g
  = ([], Ok match piece_at (board g) (pixel_to_square pos) with
            | Some piece =>
                if Color_eqb (color piece) (turn (board g))
                then set_selected_square g (Some (pixel_to_square pos))
                else g
            | None => g
            end).
Proof.
  intros Hgo Hb Hs. cbn. rewrite Hgo, Hb, Hs. cbn.
  destruct (piece_at _ _) as [piece |]; [| reflexivity].
  destruct (Color_eqb _ _); reflexivity.
Qed.

Lemma handle_second_press_illegal adv pos g selected :
  is_game_over (board g) = false -> on_board_area pos = true ->
  selected_square g = Some selected ->
  is_legal (board g) (mkMove selected (pixel_to_square pos) None None) = false ->
  handle_event adv (MOUSEBUTTONDOWN pos) g = ([], Ok (set_selected_square g None)).
Proof. intros Hgo Hb Hs Hl. cbn. rewrite Hgo, Hb, Hs. cbn. rewrite Hl. reflexivity. Qed.

Lemma handle_second_press_legal adv pos g selected :
  is_game_over (board g) = false -> on_board_area pos = true ->
  selected_square g = Some selected ->
  is_legal (board g) (mkMove selected (pixel_to_square pos) None None) = true ->
  handle_event adv (MOUSEBUTTONDOWN pos) g
  = do g1 <- refresh_score adv
               (set_selected_square
                  (set_board g (push (board g)
                                  (mkMove selected (pixel_to_square pos) None None)))
                  None);
    if negb (is_game_over (board g1)) then ret (schedule_ai_move 3000 g1) else ret g1.
Proof. intros Hgo Hb Hs Hl. cbn. rewrite Hgo, Hb, Hs. cbn. rewrite Hl. reflexivity. Qed.

Lemma handle_undo adv g :
  move_stack (board g) <> [] ->
  handle_event adv (KEYDOWN K_u) g = refresh_score adv (set_board g (pop (board g))).
Proof.
  intros H. cbn. destruct (move_stack (board g)); [contradiction |].
  cbn [length]. destruct (1 <=? _) eqn:Hle; [reflexivity |].
  apply Z.leb_gt in Hle. lia.
Qed.

Lemma handle_undo_empty adv g :
  move_stack (board g) = [] -> handle_event adv (KEYDOWN K_u) g = ([], Ok g).
Proof. intros H. cbn. rewrite H. reflexivity. Qed.

Lemma handle_restart adv g :
  handle_event adv (KEYDOWN K_r) g
  = refresh_score adv
      (set_last_ai_move (set_selected_square (set_board g new_board) None) None).
Proof. reflexivity. Qed.

Lemma handle_timer_game_over adv g :
  is_game_over (board g) = true ->
  handle_event adv AI_MOVE_EVENT g
  = ([], Ok (set_ai_move_scheduled (set_timer g 0) false)).
Proof. intros H. cbn. rewrite H. reflexivity. Qed.

Lemma handle_timer adv g :
  is_game_over (board g) = false ->
  handle_event adv AI_MOVE_EVENT g
  = do g1 <- ai_move adv (set_ai_move_scheduled (set_timer g 0) false);
    refresh_score adv g1.
Proof. intros H. cbn. rewrite H. reflexivity. Qed.

End Handlers.

(** ** What holds along the loop *)

Section Invariants.
Context `{R : RulesEngine}.
Implicit Types (adv : Advisor Board) (g : Game Board).

Lemma Color_eqb_eq (a b : Color) : Color_eqb a b = true <-> a = b.
Proof. destruct a, b; cbn; split; congruence. Qed.

Ltac step_inv :=
  repeat match goal with
    | H : ret _ = (_, Ok _) |- _ => apply ret_Ok in H as [? ?]; subst
    | H : refresh_score _ _ = (_, Ok _) |- _ =>
        apply refresh_score_Ok in H as (? & ? & ? & ?); subst
    | H : bind _ _ = (_, Ok _) |- _ =>
        apply bind_Ok in H as (? & ? & ? & ? & ? & ?); subst
    | H : ai_move _ _ = (_, Ok _) |- _ =>
        apply ai_move_Ok in H as [? | (? & ? & ? & ? & ? & ? & ?)]; subst
    | H : (if ?c then _ else _) = (_, Ok _) |- _ => destruct c eqn:?
    | H : match ?c with _ => _ end = (_, Ok _) |- _ => destruct c eqn:?
    end.

(** A handler changes the score only by storing what the evaluation
    retrieval returned. *)
Lemma handle_event_score adv event g l g' :
  handle_event adv event g = (l, Ok g') ->
  current_score g' = current_score g
  \/ exists g1 l1, get_evaluation_score adv g1 = (l1, Ok (current_score g')).
Proof.
  intros H. destruct event; unfold handle_event in H; step_inv; cbn; eauto.
Qed.

Lemma reachable_score g : reachable g -> in_range (current_score g).
Proof.
  induction 1 as [sf adv l g H | g adv event l g' _ IH H].
  - apply refresh_score_Ok in H as (s & _ & -> & Hs). exact Hs.
  - apply handle_event_score in H as [-> | (g1 & l1 & H)]; [exact IH |].
    eapply evaluation_in_range; eassumption.
Qed.

Lemma process_events_reachable events g l g' :
  reachable g -> process_events events g = (l, Ok g') -> reachable g'.
Proof.
  revert g l. induction events as [| [adv event] rest IH]; intros g l Hg H; cbn in H.
  - apply ret_Ok in H as [_ <-]. exact Hg.
  - apply bind_Ok in H as (l1 & g1 & l2 & H1 & H2 & _).
    eapply IH; [| exact H2]. eapply reachable_event; eassumption.
Qed.

Lemma main_loop_reachable frames g l g' :
  reachable g -> main_loop frames g = (l, Ok g') -> reachable g'.
Proof.
  revert g l. induction frames as [| events rest IH]; intros g l Hg H; cbn in H.
  - apply ret_Ok in H as [_ <-]. exact Hg.
  - destruct (running g).
    + apply bind_Ok in H as (l1 & g1 & l2 & H1 & H2 & _).
      eapply IH; [| exact H2]. eapply process_events_reachable; eassumption.
    + apply ret_Ok in H as [_ <-]. exact Hg.
Qed.

(** Whatever [run] returns is a state of the loop. *)
Lemma run_reachable sf adv0 frames l g :
  run adv0 frames (init sf) = (l, Ok g) -> reachable g.
Proof.
  unfold run. intros H. apply bind_Ok in H as (l1 & g1 & l2 & H1 & H2 & _).
  eapply main_loop_reachable; [| exact H2]. eapply reachable_start; exact H1.
Qed.

Context {L : RulesLaws R}.

Lemma played_pop (b : Board) :
  played b -> move_stack b <> [] ->
  played (pop b) /\ is_game_over (pop b) = false
  /\ exists m, move_stack b = move_stack (pop b) ++ [m].
Proof.
  intros Hb Hne. destruct Hb as [| b m Hb Hgo Hl].
  - rewrite move_stack_new in Hne. contradiction.
  - rewrite pop_push. split; [exact Hb |]. split; [exact Hgo |].
    apply move_stack_push.
Qed.

(** The board of the loop is always one that arose in play. *)
Lemma reachable_played g : reachable g -> played (board g).
Proof.
  induction 1 as [sf adv l g H | g adv event l g' _ IH H].
  - apply refresh_score_Ok in H as (s & _ & -> & _). cbn. constructor.
  - destruct event.
    + unfold handle_event in H. step_inv. exact IH.
    + unfold handle_event in H.
      destruct (negb (is_game_over (board g))) eqn:Hgo; [| step_inv; exact IH].
      apply negb_true_iff in Hgo.
      destruct (on_board_area pos); [| step_inv; exact IH].
      destruct (selected_square g) as [sel |].
      * destruct (is_legal (board g) _) eqn:Hl; [| step_inv; exact IH].
        step_inv; cbn; constructor; assumption.
      * step_inv; exact IH.
    + unfold handle_event in H. destruct (key =? K_u).
      * destruct (1 <=? Z.of_nat (length (move_stack (board g)))) eqn:Hlen;
          [| step_inv; exact IH].
        step_inv. cbn. apply played_pop; [exact IH |].
        intros Hnil. rewrite Hnil in Hlen. discriminate.
      * destruct (key =? K_r); step_inv; cbn; [constructor | exact IH].
    + destruct (is_game_over (board g)) eqn:Hgo.
      * rewrite handle_timer_game_over in H by exact Hgo.
        inversion H; subst. exact IH.
      * rewrite handle_timer in H by exact Hgo.
        step_inv; cbn; try exact IH. constructor; assumption.
    + unfold handle_event in H. step_inv. exact IH.
Qed.

End Invariants.

(** ** The chess board

    The numbers of games are those of the standard test positions of move
    generators: the starting position; a middle game with castling on both
    sides, pins and captures; two positions with promotions and checks. *)

Example perft_start :
  Chess.perft 1 Chess.starting_position = 20%nat
  /\ Chess.perft 2 Chess.starting_position = 400%nat.
Proof. split; vm_compute; reflexivity. Qed.

Example perft_castling :
  Chess.perft 1
    (Chess.position_of "r3k2r/p1ppqpb1/bn2pnp1/3PN3/1p2P3/2N2Q1p/PPPBBPPP/R3K2R"
       White [0; 7; 56; 63] None) = 48%nat.
Proof. vm_compute; reflexivity. Qed.

Example perft_promotion :
  Chess.perft 2
    (Chess.position_of "r3k2r/Pppp1ppp/1b3nbN/nP6/BBP1P3/q4N2/Pp1P2PP/R2Q1RK1"
       White [56; 63] None) = 264%nat
  /\ Chess.perft 1
       (Chess.position_of "rnbq1k1r/pp1Pbppp/2p5/8/2B5/8/PPP1NnPP/RNBQK2R"
          White [0; 7] None) = 44%nat.
Proof. split; vm_compute; reflexivity. Qed.

(** After 1. e4 a6 2. e5 d5 the pawn on e5 takes the pawn on d5 in passing:
    it lands on d6 and d5 is empty. *)
Example en_passant :
  let b := fold_left Chess.board_push
             [mkMove 12 28 None None; mkMove 48 40 None None;
              mkMove 28 36 None None; mkMove 51 35 None None]
             Chess.starting_board in
  Chess.ep_square (Chess.position b) = Some 43
  /\ Chess.legal (Chess.position b) (mkMove 36 43 None None) = true
  /\ Chess.pieces (Chess.position (Chess.board_push b (mkMove 36 43 None None))) !! 35
     = None
  /\ Chess.pieces (Chess.position (Chess.board_push b (mkMove 36 43 None None))) !! 43
     = Some (mkPiece Pawn White).
Proof. cbv zeta. repeat split; vm_compute; reflexivity. Qed.

(** [from_uci] on a move, a promotion, the null move, and on strings that
    are no moves. *)
Example from_uci_examples :
  Chess.parse_uci "e2e4" = Some (mkMove 12 28 None None)
  /\ Chess.parse_uci "e7e8q" = Some (mkMove 52 60 (Some Queen) None)
  /\ Chess.parse_uci "0000" = Some (mkMove 0 0 None None)
  /\ Chess.parse_uci "e2" = None
  /\ Chess.parse_uci "e2e2" = None
  /\ Chess.parse_uci "(none)" = None.
Proof. repeat split; reflexivity. Qed.

(** ** The chess board obeys the laws *)

#[global] Instance Chess_laws : RulesLaws Chess.rules.
Proof.
  split.
  - reflexivity.
  - intros b m. cbn. eexists. apply reverse_cons.
  - intros [pos st] m. reflexivity.
  - vm_compute. reflexivity.
Qed.

Lemma play_reachable events g :
  result (play events) = Ok g -> reachable (R := Chess.rules) g.
Proof.
  unfold result. destruct (play events) as [l r] eqn:H. cbn. intros ->.
  unfold play in H. apply bind_Ok in H as (l1 & g1 & l2 & H1 & H2 & _).
  eapply process_events_reachable; [| exact H2].
  eapply reachable_start. exact H1.
Qed.

Lemma after_opening : result (play opening) = Ok (after opening).
Proof. vm_compute. reflexivity. Qed.

Lemma after_opening_then_press :
  result (play opening_then_press) = Ok (after opening_then_press).
Proof. vm_compute. reflexivity. Qed.

Lemma after_fools_mate : result (play fools_mate) = Ok (after fools_mate).
Proof. vm_compute. reflexivity. Qed.

Lemma after_fools_mate_with_press :
  result (play fools_mate_with_press) = Ok (after fools_mate_with_press).
Proof. vm_compute. reflexivity. Qed.

(** ** The claims *)

Section Claims.
Context `{R : RulesEngine}.
Implicit Types (adv : Advisor Board) (g : Game Board).

(** The evaluation retrieval reads the engine flag and the board only. *)
Lemma evaluation_ext adv g1 g2 :
  stockfish g1 = stockfish g2 -> board g1 = board g2 ->
  get_evaluation_score adv g1 = get_evaluation_score adv g2.
Proof. intros Hs Hb. unfold get_evaluation_score. rewrite Hs, Hb. reflexivity. Qed.

Lemma handle_restart_returns adv g l s :
  get_evaluation_score adv (set_board g new_board) = (l, Ok s) ->
  handle_event adv (KEYDOWN K_r) g
  = (l, Ok (mkGame (stockfish g) new_board None None s
                   (ai_move_scheduled g) (timer g) (running g))).
Proof.
  intros Hs. rewrite handle_restart. erewrite refresh_score_returns.
  2:{ erewrite evaluation_ext; [exact Hs | reflexivity | reflexivity]. }
  reflexivity.
Qed.

(** C1, as the code has it: on a game with a move to take back (a countdown
    may be armed), the undo command pops the most recent move and
    recomputes the evaluation, and leaves the selected square, the last
    engine move and the countdown as they are: an armed countdown stays
    armed, and when it fires on the position after the undo the engine is
    asked and its move, if legal there, is played. *)
Theorem undo_pops_and_leaves_countdown adv g l s :
  move_stack (board g) <> [] ->
  get_evaluation_score adv (set_board g (pop (board g))) = (l, Ok s) ->
  let g' := set_current_score (set_board g (pop (board g))) s in
  handle_event adv (KEYDOWN K_u) g = (l, Ok g')
  /\ board g' = pop (board g)
  /\ current_score g' = s
  /\ selected_square g' = selected_square g
  /\ last_ai_move g' = last_ai_move g
  /\ ai_move_scheduled g' = ai_move_scheduled g
  /\ timer g' = timer g
  /\ (armed g -> armed g')
  /\ forall adv' uci move l' s',
       stockfish g = true -> is_game_over (board g') = false ->
       get_best_move adv' (board g') = Ok (Some uci) -> uci <> "" ->
       from_uci uci = Some move -> is_legal (board g') move = true ->
       get_evaluation_score adv' (set_board g' (push (board g') move)) = (l', Ok s') ->
       exists g'',
         handle_event adv' AI_MOVE_EVENT g' = (QBestMove (board g') :: l', Ok g'')
         /\ board g'' = push (board g') move
         /\ last_ai_move g'' = Some move.
Proof.
  intros Hne Hs g'. split.
  { rewrite handle_undo by exact Hne. apply refresh_score_returns. exact Hs. }
  repeat (split; [reflexivity |]).
  split; [intros Ha; exact Ha |].
  intros adv' uci move l' s' Hsf Hgo Hb Huci Hp Hl Hs'.
  rewrite handle_timer by exact Hgo.
  rewrite (ai_move_legal adv' _ uci move) by (try assumption; exact Hsf).
  rewrite bind_ret_l || (unfold bind at 1; cbn [ret]).
  erewrite refresh_score_returns.
  2:{ erewrite evaluation_ext; [exact Hs' | reflexivity | reflexivity]. }
  eexists. split; [reflexivity |]. split; reflexivity.
Qed.


(** C6, as the code has it: while the game is not over, a press on the board
    (at coordinates that are not negative, so that the pressed square is one
    of the board) with a square of the board selected, when the move from
    the selected square to the pressed one is not legal, leaves the board as
    it is, clears the selection and has the next press read as the choice of
    a piece; it asks the engine nothing. *)
Theorem illegal_move_clears_selection adv pos g selected :
  is_game_over (board g) = false ->
  0 <= fst pos -> 0 <= snd pos ->
  on_board_area pos = true ->
  selected_square g = Some selected ->
  0 <= selected <= 63 ->
  is_legal (board g) (mkMove selected (pixel_to_square pos) None None) = false ->
  let g' := set_selected_square g None in
  0 <= pixel_to_square pos <= 63
  /\ handle_event adv (MOUSEBUTTONDOWN pos) g = ([], Ok g')
  /\ board g' = board g
  /\ selected_square g' = None
  /\ awaiting_human_selection g'.
Proof.
  intros Hgo Hx Hy Hb Hs Hsel Hl g'.
  split; [apply pixel_to_square_range; assumption |]. split.
  { apply (handle_second_press_illegal adv pos g selected); assumption. }
  split; [reflexivity |]. split; [reflexivity |].
  split; [exact Hgo | reflexivity].
Qed.

(** C8, as the code has it: while the game is not over and no square is
    selected, a press on the board (at coordinates that are not negative,
    so that the pressed square is one of the board) selects the pressed
    square when it holds a piece of the side to move, and changes nothing
    when the square is empty or holds a piece of the other side. *)
Theorem first_press_selects_own_piece adv pos g :
  is_game_over (board g) = false ->
  0 <= fst pos -> 0 <= snd pos ->
  on_board_area pos = true ->
  selected_square g = None ->
  0 <= pixel_to_square pos <= 63
  /\ (forall piece,
     piece_at (board g) (pixel_to_square pos) = Some piece ->
     color piece = turn (board g) ->
     handle_event adv (MOUSEBUTTONDOWN pos) g
     = ([], Ok (set_selected_square g (Some (pixel_to_square pos)))))
  /\ (piece_at (board g) (pixel_to_square pos) = None ->
      handle_event adv (MOUSEBUTTONDOWN pos) g = ([], Ok g))
  /\ (forall piece,
        piece_at (board g) (pixel_to_square pos) = Some piece ->
        color piece <> turn (board g) ->
        handle_event adv (MOUSEBUTTONDOWN pos) g = ([], Ok g)).
Proof.
  intros Hgo Hx Hy Hb Hs.
  pose proof (handle_first_press adv pos g Hgo Hb Hs) as H.
  split; [apply pixel_to_square_range; assumption |].
  split; [| split].
  - intros piece Hp Hc. rewrite H, Hp.
    rewrite (proj2 (Color_eqb_eq _ _) Hc). reflexivity.
  - intros Hp. rewrite H, Hp. reflexivity.
  - intros piece Hp Hc. rewrite H, Hp.
    destruct (Color_eqb (color piece) (turn (board g))) eqn:He; [| reflexivity].
    apply Color_eqb_eq in He. contradiction.
Qed.

(** C9: the score starts at [0.0], a handler changes it only by storing
    what the evaluation retrieval returned, every score that the retrieval
    returns lies in [-5.0, 5.0], and so the score lies in [-5.0, 5.0] in
    every state of the loop. *)
Theorem current_score_in_range :
  (forall sf, current_score (init sf) = 0%float)
  /\ (forall adv event g l g',
        handle_event adv event g = (l, Ok g') ->
        current_score g' = current_score g
        \/ exists g1 l1, get_evaluation_score adv g1 = (l1, Ok (current_score g')))
  /\ (forall adv g l s, get_evaluation_score adv g = (l, Ok s) -> in_range s)
  /\ (forall g, reachable g -> in_range (current_score g)).
Proof.
  split; [reflexivity |].
  split; [apply handle_event_score |].
  split; [apply evaluation_in_range |].
  apply reachable_score.
Qed.

(** C10: in a state of the loop where the game is over, a press changes
    nothing; the undo command, when a move has been played, still pops the
    most recent move, the one that ended the game, and the position it
    returns to is not over; the restart command still resets the board. *)
Theorem game_over_keys_stay_live {L : RulesLaws R} g :
  reachable g ->
  is_game_over (board g) = true ->
  (forall adv pos, handle_event adv (MOUSEBUTTONDOWN pos) g = ([], Ok g))
  /\ (move_stack (board g) <> [] ->
      (exists m, move_stack (board g) = move_stack (pop (board g)) ++ [m])
      /\ is_game_over (pop (board g)) = false
      /\ forall adv l s,
           get_evaluation_score adv (set_board g (pop (board g))) = (l, Ok s) ->
           handle_event adv (KEYDOWN K_u) g
           = (l, Ok (set_current_score (set_board g (pop (board g))) s)))
  /\ (is_game_over new_board = false
      /\ forall adv l s,
           get_evaluation_score adv (set_board g new_board) = (l, Ok s) ->
           handle_event adv (KEYDOWN K_r) g
           = (l, Ok (mkGame (stockfish g) new_board None None s
                            (ai_move_scheduled g) (timer g) (running g)))).
Proof.
  intros Hg Hgo. split; [| split].
  - intros adv pos. apply handle_press_game_over. exact Hgo.
  - intros Hne.
    destruct (played_pop (board g) (reachable_played g Hg) Hne) as (_ & Hplay & Hm).
    split; [exact Hm |]. split; [exact Hplay |].
    intros adv l s Hs. rewrite handle_undo by exact Hne.
    apply refresh_score_returns. exact Hs.
  - split; [apply new_board_playable |].
    intros adv l s Hs. apply handle_restart_returns. exact Hs.
Qed.

End Claims.

(** ** The claims on the chess board *)

Lemma reachable_opening : reachable (R := Chess.rules) (after opening).
Proof. apply (play_reachable opening), after_opening. Qed.

Lemma reachable_opening_then_press :
  reachable (R := Chess.rules) (after opening_then_press).
Proof. apply (play_reachable opening_then_press), after_opening_then_press. Qed.

Lemma reachable_fools_mate : reachable (R := Chess.rules) (after fools_mate).
Proof. apply (play_reachable fools_mate), after_fools_mate. Qed.

Lemma reachable_fools_mate_with_press :
  reachable (R := Chess.rules) (after fools_mate_with_press).
Proof. apply (play_reachable fools_mate_with_press), after_fools_mate_with_press. Qed.

(** C1 fails as stated.  The human plays e2-e4; the countdown is armed when
    the undo command comes.  The move is popped, but the countdown stays
    armed, and when it fires the engine's move g1-f3 is played on the
    position after the undo.  And when the human has pressed on the pawn on
    e7 before the undo command, e7 is still selected after it. *)
Lemma undo_does_not_cancel_countdown :
  let g := after opening in
  let g' := after (opening ++ [(quiet, KEYDOWN K_u)]) in
  let g'' := after (opening ++ [(quiet, KEYDOWN K_u); (replying "g1f3", AI_MOVE_EVENT)]) in
  let h := after opening_then_press in
  let h' := after (opening_then_press ++ [(quiet, KEYDOWN K_u)]) in
  (reachable (R := Chess.rules) g
   /\ armed g
   /\ move_stack (board g) = [mkMove 12 28 None None]
   /\ result (handle_event quiet (KEYDOWN K_u) g) = Ok g'
   /\ board g' = Chess.starting_board
   /\ armed g'
   /\ result (handle_event (replying "g1f3") AI_MOVE_EVENT g') = Ok g''
   /\ move_stack (board g'') = [mkMove 6 21 None None]
   /\ board g'' <> board g')
  /\ (reachable (R := Chess.rules) h
      /\ armed h
      /\ result (handle_event quiet (KEYDOWN K_u) h) = Ok h'
      /\ selected_square h' = Some 52).
Proof.
  cbv zeta. split.
  - split; [exact reachable_opening |].
    split; [split; [vm_compute; reflexivity | vm_compute; discriminate] |].
    split; [vm_compute; reflexivity |].
    split; [vm_compute; reflexivity |].
    split; [vm_compute; reflexivity |].
    split; [split; [vm_compute; reflexivity | vm_compute; discriminate] |].
    split; [vm_compute; reflexivity |].
    split; [vm_compute; reflexivity |].
    intros H. apply (f_equal (@move_stack Chess.rules)) in H.
    vm_compute in H. discriminate.
  - split; [exact reachable_opening_then_press |].
    split; [split; [vm_compute; reflexivity | vm_compute; discriminate] |].
    split; vm_compute; reflexivity.
Qed.

(** C1 at work on the same game: the undo command during the countdown,
    with e7 selected, and the countdown firing after it. *)
Lemma undo_pops_and_leaves_countdown_witness :
  let g := after opening_then_press in
  let g' := set_current_score (set_board g (pop (board g))) 0.25%float in
  handle_event quiet (KEYDOWN K_u) g = ([QEvaluation Chess.starting_board], Ok g')
  /\ board g' = pop (board g)
  /\ selected_square g' = selected_square g
  /\ (armed (R := Chess.rules) g -> armed g')
  /\ exists g'',
       handle_event (replying "g1f3") AI_MOVE_EVENT g'
       = ([QBestMove (board g');
           QEvaluation (push (board g') (mkMove 6 21 None None))], Ok g'')
       /\ board g'' = push (board g') (mkMove 6 21 None None)
       /\ last_ai_move g'' = Some (mkMove 6 21 None None).
Proof.
  cbv zeta.
  assert (Hne : @move_stack Chess.rules (board (after opening_then_press)) <> [])
    by (vm_compute; discriminate).
  assert (Hs : get_evaluation_score (R := Chess.rules) quiet
                 (set_board (after opening_then_press)
                            (pop (board (after opening_then_press))))
               = ([QEvaluation Chess.starting_board], Ok 0.25%float))
    by (vm_compute; reflexivity).
  destruct (undo_pops_and_leaves_countdown (R := Chess.rules) quiet _ _ _ Hne Hs)
    as (Hh & Hb & _ & Hsel & _ & _ & _ & Harm & Hfire).
  split; [exact Hh |]. split; [exact Hb |]. split; [exact Hsel |].
  split; [exact Harm |].
  apply (Hfire (replying "g1f3") "g1f3"%string (mkMove 6 21 None None)
               [QEvaluation
                  (@push Chess.rules
                     (@pop Chess.rules (board (after opening_then_press)))
                     (mkMove 6 21 None None))]
               0.25%float);
    try (vm_compute; reflexivity).
  intros H. discriminate H.
Defined.



(** C6 fails as stated.  In the fool's mate the human presses on the black
    queen on d8 during the last countdown, and the engine's move d8-h4 ends
    the game with d8 still selected.  A press on h4 then changes nothing:
    the move d8-h4 is not legal, and the selection is not cleared. *)
Lemma press_at_game_over_keeps_selection :
  let g := after fools_mate_with_press in
  reachable (R := Chess.rules) g
  /\ selected_square g = Some 59
  /\ on_board_area (375, 225) = true
  /\ pixel_to_square (375, 225) = 31
  /\ is_legal (board g) (mkMove 59 31 None None) = false
  /\ handle_event quiet (MOUSEBUTTONDOWN (375, 225)) g = ([], Ok g)
  /\ selected_square g <> None
  /\ ~ awaiting_human_selection g.
Proof.
  cbv zeta.
  split; [exact reachable_fools_mate_with_press |].
  split; [vm_compute; reflexivity |].
  split; [vm_compute; reflexivity |].
  split; [vm_compute; reflexivity |].
  split; [vm_compute; reflexivity |].
  split; [vm_compute; reflexivity |].
  split; [vm_compute; discriminate |].
  intros [_ H]. vm_compute in H. discriminate.
Qed.

(** C6 at work: after e2-e4 the human has pressed on the pawn on e7 and now
    presses on e4. *)
Lemma illegal_move_clears_selection_witness :
  let g := after opening_then_press in
  pixel_to_square (225, 225) = 28
  /\ handle_event quiet (MOUSEBUTTONDOWN (225, 225)) g
     = ([], Ok (set_selected_square g None))
  /\ awaiting_human_selection (R := Chess.rules) (set_selected_square g None).
Proof.
  cbv zeta.
  assert (Hgo : @is_game_over Chess.rules (board (after opening_then_press)) = false)
    by (vm_compute; reflexivity).
  assert (Hb : on_board_area (225, 225) = true) by reflexivity.
  assert (Hs : selected_square (after opening_then_press) = Some 52)
    by (vm_compute; reflexivity).
  assert (Hl : @is_legal Chess.rules (board (after opening_then_press))
                 (mkMove 52 (pixel_to_square (225, 225)) None None) = false)
    by (vm_compute; reflexivity).
  assert (Hx : 0 <= fst (225, 225)) by (cbn; lia).
  assert (Hy : 0 <= snd (225, 225)) by (cbn; lia).
  assert (Hsel : 0 <= 52 <= 63) by lia.
  destruct (illegal_move_clears_selection (R := Chess.rules) quiet _ _ _
              Hgo Hx Hy Hb Hs Hsel Hl)
    as (_ & Hh & _ & _ & Haw).
  split; [reflexivity |]. split; [exact Hh | exact Haw].
Defined.

(** C8 fails as stated.  After the fool's mate no square is selected and
    White, to move, is mated; a press on the white king on e1 selects
    nothing. *)
Lemma press_at_game_over_selects_nothing :
  let g := after fools_mate in
  reachable (R := Chess.rules) g
  /\ selected_square g = None
  /\ on_board_area (225, 375) = true
  /\ pixel_to_square (225, 375) = 4
  /\ piece_at (board g) 4 = Some (mkPiece King White)
  /\ turn (board g) = White
  /\ handle_event quiet (MOUSEBUTTONDOWN (225, 375)) g = ([], Ok g)
  /\ selected_square g <> Some 4.
Proof.
  cbv zeta.
  split; [exact reachable_fools_mate |].
  split; [vm_compute; reflexivity |].
  split; [vm_compute; reflexivity |].
  split; [vm_compute; reflexivity |].
  split; [vm_compute; reflexivity |].
  split; [vm_compute; reflexivity |].
  split; [vm_compute; reflexivity |].
  vm_compute; discriminate.
Qed.

(** C8 at work at the start of the game: a press on the white pawn on e2
    selects it, a press on the empty square e4 and a press on the black pawn
    on e7 change nothing. *)
Lemma first_press_selects_own_piece_witness :
  let g := after [] in
  handle_event quiet (MOUSEBUTTONDOWN (225, 325)) g
  = ([], Ok (set_selected_square g (Some (pixel_to_square (225, 325)))))
  /\ handle_event quiet (MOUSEBUTTONDOWN (225, 225)) g = ([], Ok g)
  /\ handle_event quiet (MOUSEBUTTONDOWN (225, 75)) g = ([], Ok g).
Proof.
  cbv zeta.
  assert (Hgo : @is_game_over Chess.rules (board (after [])) = false)
    by (vm_compute; reflexivity).
  assert (Hs : selected_square (after []) = None) by (vm_compute; reflexivity).
  assert (Hx : 0 <= 225) by lia.
  assert (Hy1 : 0 <= 325) by lia.
  assert (Hy2 : 0 <= 225) by lia.
  assert (Hy3 : 0 <= 75) by lia.
  split; [| split].
  - refine (proj1 (proj2 (first_press_selects_own_piece (R := Chess.rules)
                            quiet (225, 325) _ Hgo Hx Hy1 eq_refl Hs))
                  (mkPiece Pawn White) _ _);
      vm_compute; reflexivity.
  - refine (proj1 (proj2 (proj2 (first_press_selects_own_piece (R := Chess.rules)
                                   quiet (225, 225) _ Hgo Hx Hy2 eq_refl Hs))) _).
    vm_compute; reflexivity.
  - refine (proj2 (proj2 (proj2 (first_press_selects_own_piece (R := Chess.rules)
                                   quiet (225, 75) _ Hgo Hx Hy3 eq_refl Hs)))
                  (mkPiece Pawn Black) _ _).
    + vm_compute; reflexivity.
    + vm_compute; discriminate.
Defined.

(** C9 at work: the score after the fool's mate. *)
Lemma current_score_in_range_witness :
  current_score (after fools_mate) = 0.25%float
  /\ in_range (current_score (after fools_mate)).
Proof.
  split; [vm_compute; reflexivity |].
  apply (proj2 (proj2 (proj2 (current_score_in_range (R := Chess.rules))))).
  exact reachable_fools_mate.
Defined.

(** C10 at work after the fool's mate: a press changes nothing, the undo
    command takes the mating move d8-h4 back and the game goes on. *)
Lemma game_over_keys_stay_live_witness :
  let g := after fools_mate in
  let before := after [(quiet, press 13); (quiet, press 21);
                       (replying "e7e5", AI_MOVE_EVENT);
                       (quiet, press 14); (quiet, press 30)] in
  is_game_over (board g) = true
  /\ handle_event quiet (MOUSEBUTTONDOWN (225, 375)) g = ([], Ok g)
  /\ move_stack (board g) = move_stack (pop (board g)) ++ [mkMove 59 31 None None]
  /\ pop (board g) = board before
  /\ is_game_over (pop (board g)) = false
  /\ handle_event quiet (KEYDOWN K_u) g
     = ([QEvaluation (board before)],
        Ok (set_current_score (set_board g (pop (board g))) 0.25%float)).
Proof.
  cbv zeta.
  assert (Hgo : @is_game_over Chess.rules (board (after fools_mate)) = true)
    by (vm_compute; reflexivity).
  assert (Hne : @move_stack Chess.rules (board (after fools_mate)) <> [])
    by (vm_compute; discriminate).
  destruct (game_over_keys_stay_live (R := Chess.rules) _ reachable_fools_mate Hgo)
    as (Hpress & Hundo & _).
  destruct (Hundo Hne) as (_ & Hplay & Hu).
  split; [exact Hgo |].
  split; [apply Hpress |].
  split; [vm_compute; reflexivity |].
  split; [vm_compute; reflexivity |].
  split; [exact Hplay |].
  apply Hu. vm_compute. reflexivity.
Defined.

(** ** Engine failures *)

Section Failures.
Context `{R : RulesEngine}.
Implicit Types (adv : Advisor Board) (g : Game Board).

Lemma evaluation_absorbs adv g :
  stockfish g = false \/ raising adv ->
  exists l, get_evaluation_score adv g = (l, Ok 0%float).
Proof.
  destruct (stockfish g) eqn:Hsf.
  - intros [H | [He _]]; [discriminate |].
    destruct (He (board g)) as [e Hr].
    eexists. eapply evaluation_engine_error; eassumption.
  - intros _. eexists. apply evaluation_no_engine. exact Hsf.
Qed.

Lemma ai_move_absorbs adv g :
  stockfish g = false \/ raising adv ->
  exists l, ai_move adv g = (l, Ok g).
Proof.
  destruct (stockfish g) eqn:Hsf.
  - intros [H | [_ Hb]]; [discriminate |].
    destruct (Hb (board g)) as [e Hr].
    eexists. eapply ai_move_engine_error; eassumption.
  - intros _. eexists. apply ai_move_no_engine. exact Hsf.
Qed.

Lemma refresh_score_absorbs adv g :
  stockfish g = false \/ raising adv ->
  exists l, refresh_score adv g = (l, Ok (set_current_score g 0%float)).
Proof.
  intros H. destruct (evaluation_absorbs adv g H) as [l Hl].
  exists l. apply refresh_score_returns. exact Hl.
Qed.

(** Without an engine, or with an engine that raises at every call, no
    event makes the loop raise, and the engine turn leaves the board as it
    is. *)
Lemma handle_event_absorbs adv event g :
  stockfish g = false \/ raising adv ->
  exists l g', handle_event adv event g = (l, Ok g')
               /\ (event = AI_MOVE_EVENT -> board g' = board g).
Proof.
  intros H. destruct event.
  - eexists _, _. split; [reflexivity | discriminate].
  - unfold handle_event.
    destruct (negb (is_game_over (board g))); [| eexists _, _; split; [reflexivity | discriminate]].
    destruct (on_board_area pos); [| eexists _, _; split; [reflexivity | discriminate]].
    destruct (selected_square g) as [sel |].
    + destruct (is_legal (board g) _);
        [| eexists _, _; split; [reflexivity | discriminate]].
      edestruct refresh_score_absorbs as [l ->]; [exact H |].
      rewrite bind_ret_l || (unfold bind at 1).
      destruct (negb (is_game_over _)); eexists _, _; (split; [reflexivity | discriminate]).
    + destruct (piece_at _ _) as [piece |];
        [destruct (Color_eqb _ _) |]; eexists _, _; (split; [reflexivity | discriminate]).
  - unfold handle_event. destruct (key =? K_u).
    + destruct (1 <=? _).
      * edestruct refresh_score_absorbs as [l ->]; [exact H |].
        eexists _, _. split; [reflexivity | discriminate].
      * eexists _, _. split; [reflexivity | discriminate].
    + destruct (key =? K_r).
      * edestruct refresh_score_absorbs as [l ->]; [exact H |].
        eexists _, _. split; [reflexivity | discriminate].
      * eexists _, _. split; [reflexivity | discriminate].
  - destruct (is_game_over (board g)) eqn:Hgo.
    + rewrite handle_timer_game_over by exact Hgo.
      eexists _, _. split; [reflexivity |]. intros _. reflexivity.
    + rewrite handle_timer by exact Hgo.
      edestruct ai_move_absorbs as [l1 ->]; [exact H |].
      unfold bind at 1.
      edestruct refresh_score_absorbs as [l2 ->]; [exact H |].
      eexists _, _. split; [reflexivity |]. intros _. reflexivity.
  - eexists _, _. split; [reflexivity | discriminate].
Qed.

(** A dictionary without the key ["type"] makes the evaluation retrieval
    raise. *)
Lemma evaluation_missing_type adv g d :
  stockfish g = true ->
  get_evaluation adv (board g) = Ok d ->
  d !! "type" = None ->
  get_evaluation_score adv g = ([QEvaluation (board g)], Raise (KeyError "type")).
Proof.
  intros H Hd Ht. rewrite (evaluation_answer adv g d H Hd).
  rewrite (raw_score_missing_type d Ht). reflexivity.
Qed.

(** A best move that is no UCI string makes the timer event raise. *)
Lemma handle_timer_malformed adv g uci :
  is_game_over (board g) = false ->
  stockfish g = true ->
  get_best_move adv (board g) = Ok (Some uci) ->
  uci <> "" -> from_uci uci = None ->
  handle_event adv AI_MOVE_EVENT g
  = ([QBestMove (board g)], Raise (InvalidMoveError uci)).
Proof.
  intros Hgo Hsf Hb Hne Hp. rewrite handle_timer by exact Hgo.
  rewrite (ai_move_malformed adv _ uci) by assumption. reflexivity.
Qed.

(** What the timer event does when it returns: the countdown is disarmed;
    when the game is over the engine is not asked and nothing is played;
    otherwise the board is either left as it is or a legal move named by
    the engine is played and recorded. *)
Lemma handle_timer_Ok adv g l g' :
  handle_event adv AI_MOVE_EVENT g = (l, Ok g') ->
  timer g' = None /\ ai_move_scheduled g' = false
  /\ (is_game_over (board g) = true -> l = [] /\ board g' = board g
      /\ last_ai_move g' = last_ai_move g /\ current_score g' = current_score g)
  /\ ((board g' = board g /\ last_ai_move g' = last_ai_move g)
      \/ exists uci move,
           is_game_over (board g) = false
           /\ get_best_move adv (board g) = Ok (Some uci)
           /\ from_uci uci = Some move /\ is_legal (board g) move = true
           /\ board g' = push (board g) move /\ last_ai_move g' = Some move).
Proof.
  destruct (is_game_over (board g)) eqn:Hgo.
  - rewrite handle_timer_game_over by exact Hgo. intros H. inversion H; subst.
    cbn. repeat split; auto.
  - rewrite handle_timer by exact Hgo. intros H.
    apply bind_Ok in H as (l1 & g1 & l2 & Ha & Hr & ->).
    apply refresh_score_Ok in Hr as (s & _ & -> & _).
    apply ai_move_Ok in Ha as [-> | (uci & move & Hsf & Hb & Hp & Hl & ->)].
    + cbn. repeat split; auto; discriminate.
    + cbn. repeat split; try discriminate.
      right. exists uci, move. cbn in Hb, Hl. auto 10.
Qed.

End Failures.

Lemma broken_engine_raising `{R : RulesEngine} : raising (broken_engine (B := Board)).
Proof. split; intros b; exists EngineError; reflexivity. Qed.

(** An engine that raises at every call: the human plays e2-e4, the
    countdown fires, nothing is played, the score is [0.0], and the loop
    goes on. *)
Example engine_errors_absorbed :
  match result (run (R := Chess.rules) broken_engine
                  [[(broken_engine, press 12); (broken_engine, press 28)];
                   [(broken_engine, AI_MOVE_EVENT)]]
                  (init true)) with
  | Ok g =>
      move_stack (board g) = [mkMove 12 28 None None]
      /\ current_score g = 0%float
      /\ timer g = None
      /\ running g = true
  | Raise _ => False
  end.
Proof. vm_compute. repeat split. Qed.

(** C3 does not hold of the code: an answer of the engine that is not of the
    expected form makes [run] raise, at both call sites.  An evaluation
    without the key ["type"] raises [KeyError] from the first evaluation of
    [run], and from the restart command; a best move that is no UCI string
    raises [InvalidMoveError] from the timer event. *)
Theorem malformed_engine_answer_raises :
  run (R := Chess.rules) (engine ∅ None) [] (init true)
  = ([QEvaluation Chess.starting_board], Raise (KeyError "type"))
  /\ result (handle_event (R := Chess.rules) (engine ∅ None) (KEYDOWN K_r) (after opening))
     = Raise (KeyError "type")
  /\ result (run (R := Chess.rules) quiet [opening; [(replying "e2", AI_MOVE_EVENT)]]
               (init true))
     = Raise (InvalidMoveError "e2").
Proof.
  split; [vm_compute; reflexivity |].
  split; vm_compute; reflexivity.
Qed.

(** C7 does not hold of the code: after e2-e4 the countdown fires and the
    engine names ["e2"], which is no move; the timer event raises instead of
    passing the turn back. *)
Theorem timer_event_malformed_move_raises :
  let g := after opening in
  reachable (R := Chess.rules) g
  /\ armed g
  /\ is_game_over (board g) = false
  /\ from_uci (RulesEngine := Chess.rules) "e2" = None
  /\ handle_event (replying "e2") AI_MOVE_EVENT g
     = ([QBestMove (board g)], Raise (InvalidMoveError "e2")).
Proof.
  cbv zeta.
  split; [exact reachable_opening |].
  split; [split; [vm_compute; reflexivity | vm_compute; discriminate] |].
  split; [vm_compute; reflexivity |].
  split; [vm_compute; reflexivity |].
  apply (handle_timer_malformed (R := Chess.rules));
    vm_compute; (reflexivity || discriminate).
Qed.

(** * Further properties of the program *)

(** ** Presses and cells *)

Lemma square_rect_corner (s : Z) :
  square_rect s
  = (fst (square_to_pixel s), snd (square_to_pixel s), SQUARE_SIZE, SQUARE_SIZE).
Proof. reflexivity. Qed.

(** Division by the side of a square, on the board. *)
Lemma pixel_cell (x c : Z) : c * 50 <= x < c * 50 + 50 <-> x / 50 = c.
Proof.
  pose proof (Z.div_mod x 50 ltac:(lia)). pose proof (Z.mod_pos_bound x 50 ltac:(lia)).
  split; [| lia].
  intros Hc. symmetry. apply Z.div_unique with (r := x - c * 50); lia.
Qed.

Lemma rank_file (s : Z) :
  0 <= s <= 63 -> 0 <= s mod 8 < 8 /\ 0 <= s / 8 < 8 /\ s = s / 8 * 8 + s mod 8.
Proof.
  intros Hs.
  pose proof (Z.div_mod s 8 ltac:(lia)). pose proof (Z.mod_pos_bound s 8 ltac:(lia)).
  lia.
Qed.

(** X1: on the board, a press falls on square [s] exactly when its pixel
    lies in the rectangle that [highlight_square] outlines for [s]. *)
Theorem press_hits_the_cell_drawn (s x y : Z) :
  0 <= s <= 63 -> 0 <= x -> 0 <= y -> on_board_area (x, y) = true ->
  pixel_to_square (x, y) = s <-> covers (square_rect s) x y.
Proof.
  intros Hs Hx Hy Hb. unfold on_board_area, BOARD_SIZE in Hb.
  apply andb_prop in Hb as [Hx4 Hy4]. apply Z.ltb_lt in Hx4, Hy4.
  unfold pixel_to_square, square_rect, covers. rewrite SQUARE_SIZE_50.
  rewrite !pixel_cell. pose proof (rank_file s Hs) as (Hf & Hr & Hfr).
  assert (0 <= x / 50 < 8) by (split; [apply Z.div_pos | apply Z.div_lt_upper_bound]; lia).
  assert (0 <= y / 50 < 8) by (split; [apply Z.div_pos | apply Z.div_lt_upper_bound]; lia).
  split; [| lia].
  intros <-.
  replace ((7 - y / 50) * 8 + x / 50) with (x / 50 + (7 - y / 50) * 8) by lia.
  rewrite Z.mod_add, Z.div_add by lia.
  rewrite (Z.mod_small (x / 50)), (Z.div_small (x / 50)) by lia. lia.
Qed.

(** X1 on the square e2 and the pixel in the middle of its cell. *)
Lemma press_hits_the_cell_drawn_witness :
  pixel_to_square (225, 325) = 12 <-> covers (square_rect 12) 225 325.
Proof.
  apply (press_hits_the_cell_drawn 12 225 325); try lia. reflexivity.
Defined.

(** X2: a press on the board area, at the non-negative coordinates that
    pygame reports, always names one of the squares 0..63. *)
Theorem press_names_a_square (x y : Z) :
  0 <= x -> 0 <= y -> on_board_area (x, y) = true ->
  0 <= pixel_to_square (x, y) <= 63.
Proof.
  intros Hx Hy Hb.
  unfold on_board_area, BOARD_SIZE in Hb.
  apply andb_prop in Hb as [Hx4 Hy4]. apply Z.ltb_lt in Hx4, Hy4.
  unfold pixel_to_square. rewrite SQUARE_SIZE_50.
  assert (0 <= x / 50 < 8) by (split; [apply Z.div_pos | apply Z.div_lt_upper_bound]; lia).
  assert (0 <= y / 50 < 8) by (split; [apply Z.div_pos | apply Z.div_lt_upper_bound]; lia).
  lia.
Qed.

Lemma press_names_a_square_witness : 0 <= pixel_to_square (399, 0) <= 63.
Proof. apply (press_names_a_square 399 0); try lia. reflexivity. Defined.

(** ** The squares of the board *)

Lemma board_squares_elem (op : DrawOp) :
  op ∈ board_squares
  <-> exists row col,
        0 <= row < 8 /\ 0 <= col < 8
        /\ op = DrawRect (if (row + col) mod 2 =? 0 then WHITE else GRAY)
                         (col * SQUARE_SIZE, row * SQUARE_SIZE, SQUARE_SIZE, SQUARE_SIZE) 0.
Proof.
  unfold board_squares. rewrite list_elem_of_bind. split.
  - intros (row & Hop & Hrow). apply list_elem_of_bind in Hop as (col & Hop & Hcol).
    apply list_elem_of_singleton in Hop. apply elem_of_seqZ in Hrow, Hcol.
    exists row, col. repeat split; try lia. exact Hop.
  - intros (row & col & Hrow & Hcol & ->). exists row. split.
    + apply list_elem_of_bind. exists col. split.
      * apply list_elem_of_singleton. reflexivity.
      * apply elem_of_seqZ. lia.
    + apply elem_of_seqZ. lia.
Qed.

(** X3: the 64 painted squares tile the board.  A pixel of the board is
    covered by exactly one of them: the cell of the square that a press at
    this pixel names, painted white when file and rank of the square
    (counted from 0) have an odd sum and gray otherwise, so that a1 is
    dark. *)
Theorem squares_tile_the_board (x y : Z) (color : RGB) (rect : Rect) (width : Z) :
  0 <= x < BOARD_SIZE -> 0 <= y < BOARD_SIZE ->
  DrawRect color rect width ∈ board_squares /\ covers rect x y
  <-> rect = square_rect (pixel_to_square (x, y)) /\ width = 0
      /\ color = (if (pixel_to_square (x, y) mod 8 + pixel_to_square (x, y) / 8) mod 2 =? 1
                  then WHITE else GRAY).
Proof.
  unfold BOARD_SIZE. intros Hx Hy.
  assert (Hcx : 0 <= x / 50 < 8)
    by (split; [apply Z.div_pos | apply Z.div_lt_upper_bound]; lia).
  assert (Hcy : 0 <= y / 50 < 8)
    by (split; [apply Z.div_pos | apply Z.div_lt_upper_bound]; lia).
  assert (Hmod : pixel_to_square (x, y) mod 8 = x / 50).
  { unfold pixel_to_square. rewrite SQUARE_SIZE_50.
    replace ((7 - y / 50) * 8 + x / 50) with (x / 50 + (7 - y / 50) * 8) by lia.
    rewrite Z.mod_add by lia. apply Z.mod_small. lia. }
  assert (Hdiv : pixel_to_square (x, y) / 8 = 7 - y / 50).
  { unfold pixel_to_square. rewrite SQUARE_SIZE_50.
    replace ((7 - y / 50) * 8 + x / 50) with (x / 50 + (7 - y / 50) * 8) by lia.
    rewrite Z.div_add by lia. rewrite Z.div_small by lia. lia. }
  assert (Hcol : forall row col, 0 <= row < 8 -> 0 <= col < 8 ->
            ((row + col) mod 2 =? 0) = ((col + (7 - row)) mod 2 =? 1)).
  { intros row col Hr Hc.
    assert (row ∈ seqZ 0 8) as Hr' by (apply elem_of_seqZ; lia).
    assert (col ∈ seqZ 0 8) as Hc' by (apply elem_of_seqZ; lia).
    revert Hr' Hc'. clear. revert row col.
    assert (forallb (fun row => forallb (fun col =>
              Bool.eqb ((row + col) mod 2 =? 0) ((col + (7 - row)) mod 2 =? 1))
              (seqZ 0 8)) (seqZ 0 8) = true) as Hall by (vm_compute; reflexivity).
    intros row col Hr Hc. rewrite forallb_forall in Hall.
    apply list_elem_of_In in Hr, Hc.
    specialize (Hall row Hr). rewrite forallb_forall in Hall.
    specialize (Hall col Hc). apply Bool.eqb_prop in Hall. exact Hall. }
  unfold square_rect. rewrite Hmod, Hdiv, board_squares_elem.
  rewrite SQUARE_SIZE_50. split.
  - intros [(row & col & Hrow & Hcl & Heq) Hcov]. inversion Heq; subst. clear Heq.
    unfold covers in Hcov. rewrite !pixel_cell in Hcov. destruct Hcov as [<- <-].
    replace (7 - (7 - y / 50)) with (y / 50) by lia.
    repeat split. rewrite (Hcol (y / 50) (x / 50)) by lia. reflexivity.
  - intros (-> & -> & ->). replace (7 - (7 - y / 50)) with (y / 50) by lia. split.
    + exists (y / 50), (x / 50). repeat split; try lia.
      rewrite (Hcol (y / 50) (x / 50)) by lia. reflexivity.
    + unfold covers. rewrite !pixel_cell. split; reflexivity.
Qed.

(** X3 at a pixel of a1, the bottom-left square: one gray square covers
    it. *)
Lemma squares_tile_the_board_witness :
  DrawRect GRAY (0, 350, 50, 50) 0 ∈ board_squares /\ covers (0, 350, 50, 50) 10 390.
Proof.
  apply (squares_tile_the_board 10 390 GRAY (0, 350, 50, 50) 0);
    [unfold BOARD_SIZE; lia | unfold BOARD_SIZE; lia |].
  repeat split.
Defined.

(** ** The images *)

Lemma fold_insert_lookup {V} (val : string -> V) (keys : list string)
    (images : gmap string V) (key : string) :
  fold_left (fun images k => <[k := val k]> images) keys images !! key
  = if decide (key ∈ keys) then Some (val key) else images !! key.
Proof.
  revert images. induction keys as [| k keys IH]; intros images; cbn [fold_left].
  - destruct (decide (key ∈ [])) as [Hin |]; [| reflexivity].
    apply elem_of_nil in Hin. contradiction.
  - rewrite IH. destruct (decide (key ∈ keys)) as [Hin | Hnin].
    + destruct (decide (key ∈ k :: keys)) as [| Hn]; [reflexivity |].
      exfalso. apply Hn. apply elem_of_cons. right. exact Hin.
    + destruct (decide (key = k)) as [-> | Hne].
      * rewrite lookup_insert_eq.
        destruct (decide (k ∈ k :: keys)) as [| Hn]; [reflexivity |].
        exfalso. apply Hn. apply elem_of_cons. left. reflexivity.
      * rewrite lookup_insert_ne by congruence.
        destruct (decide (key ∈ k :: keys)) as [Hin |]; [| reflexivity].
        apply elem_of_cons in Hin as [? | ?]; contradiction.
Qed.

(** The surface that [load_images] stores under a key. *)
Lemma load_images_lookup (sep : string) (loads : string -> bool) (key : string) :
  load_images sep loads !! key
  = if decide (key ∈ image_keys)
    then Some (let image_path :=
                 String.append "assets" (String.append sep (String.append key ".png")) in
               if loads image_path then Image image_path (SQUARE_SIZE, SQUARE_SIZE)
               else Plain (SQUARE_SIZE, SQUARE_SIZE) GRAY)
    else None.
Proof.
  unfold load_images.
  set (val := fun key : string =>
         let image_path :=
           String.append "assets" (String.append sep (String.append key ".png")) in
         if loads image_path then Image image_path (SQUARE_SIZE, SQUARE_SIZE)
         else Plain (SQUARE_SIZE, SQUARE_SIZE) GRAY).
  transitivity (fold_left (fun (images : gmap string Surface) k => <[k := val k]> images)
                          image_keys ∅ !! key).
  - f_equal. generalize (∅ : gmap string Surface).
    induction image_keys as [| k keys IH]; intros images; [reflexivity |].
    cbn [fold_left]. rewrite <- IH. f_equal. unfold val. cbn zeta.
    destruct (loads _); reflexivity.
  - rewrite fold_insert_lookup, lookup_empty. reflexivity.
Qed.

(** X4: whatever files fail to load, [load_images] returns a dictionary
    with exactly the twelve keys wP, wN, ..., bK; under each key lies the
    image of its file, scaled to a square, or a gray square of the same
    size when loading failed. *)
Theorem load_images_always_complete (sep : string) (loads : string -> bool) :
  dom (load_images sep loads)
  = list_to_set ["wP"; "wN"; "wB"; "wR"; "wQ"; "wK"; "bP"; "bN"; "bB"; "bR"; "bQ"; "bK"]
  /\ forall key surface,
       load_images sep loads !! key = Some surface ->
       let image_path :=
         String.append "assets" (String.append sep (String.append key ".png")) in
       (loads image_path = true /\ surface = Image image_path (50, 50))
       \/ (loads image_path = false /\ surface = Plain (50, 50) (128, 128, 128)).
Proof.
  split.
  - apply set_eq. intros key. rewrite elem_of_dom, load_images_lookup.
    change ["wP"; "wN"; "wB"; "wR"; "wQ"; "wK"; "bP"; "bN"; "bB"; "bR"; "bQ"; "bK"]
      with image_keys.
    rewrite elem_of_list_to_set.
    destruct (decide (key ∈ image_keys)) as [Hin | Hnin].
    + split; [intros _; exact Hin | intros _; eexists; reflexivity].
    + split; [intros [? ?]; discriminate | contradiction].
  - intros key surface. rewrite load_images_lookup.
    destruct (decide (key ∈ image_keys)); [| discriminate].
    intros H. inversion H. cbn zeta. destruct (loads _); [left | right]; auto.
Qed.

Lemma piece_key_known (piece : Piece) :
  String.append (match color piece with White => "w" | Black => "b" end)
                (upper (symbol piece)) ∈ image_keys.
Proof.
  destruct piece as [[] []]; vm_compute;
    repeat (first [apply list_elem_of_here | apply list_elem_of_further]).
Qed.

(** X5: with the images of [load_images], [get_piece_image] finds a
    surface for every piece, a square of side [SQUARE_SIZE]: the image of
    the file named after the colour and the capital letter of the piece, or
    the gray stand-in. *)
Theorem every_piece_has_an_image (sep : string) (loads : string -> bool) (piece : Piece) :
  let key := String.append (match color piece with White => "w" | Black => "b" end)
                           (match piece_type piece with
                            | Pawn => "P" | Knight => "N" | Bishop => "B"
                            | Rook => "R" | Queen => "Q" | King => "K"
                            end) in
  let image_path := String.append "assets" (String.append sep (String.append key ".png")) in
  get_piece_image (load_images sep loads) piece
  = Some (if loads image_path then Image image_path (SQUARE_SIZE, SQUARE_SIZE)
          else Plain (SQUARE_SIZE, SQUARE_SIZE) GRAY).
Proof.
  intros key image_path. unfold get_piece_image. rewrite load_images_lookup.
  destruct (decide (_ ∈ image_keys)) as [_ | Hn];
    [| exfalso; apply Hn; apply piece_key_known].
  subst image_path key. destruct piece as [[] []]; reflexivity.
Qed.

(** ** The display *)

Lemma all_from_spec (p : Z -> bool) (n : nat) (v x : Z) :
  all_from n v p = true -> v <= x < v + Z.of_nat n -> p x = true.
Proof.
  revert v. induction n as [| n IH]; intros v H Hx; [lia |].
  cbn [all_from] in H. destruct (p v) eqn:Hp; [| discriminate].
  destruct (Z.eq_dec x v) as [-> | Hne]; [exact Hp |].
  apply (IH (v + 1)); [exact H | lia].
Qed.

Lemma bar_check_all : all_from (Z.to_nat 64001) (-32000) bar_check = true.
Proof. vm_compute. reflexivity. Qed.

Section DisplayProperties.
Context `{R : RulesEngine}.
Variable text_size : string -> Z * Z.
Variable format_score : float -> string.
Variable result_text_of : Board -> string.
Implicit Types (g : Game Board) (images : gmap string Surface).

Lemma board_pieces_elem images (b : Board) (op : DrawOp) :
  op ∈ board_pieces images b
  <-> exists sq piece image,
        0 <= sq <= 63 /\ piece_at b sq = Some piece
        /\ get_piece_image images piece = Some image
        /\ op = Blit image (square_to_pixel sq).
Proof.
  unfold board_pieces. rewrite list_elem_of_bind. split.
  - intros (sq & Hop & Hsq). apply elem_of_seqZ in Hsq.
    destruct (piece_at b sq) as [piece |] eqn:Hp;
      [| apply elem_of_nil in Hop; contradiction].
    cbn zeta in Hop.
    destruct (get_piece_image images piece) as [image |] eqn:Hi;
      [| apply elem_of_nil in Hop; contradiction].
    apply list_elem_of_singleton in Hop.
    exists sq, piece, image. repeat split; try lia; assumption.
  - intros (sq & piece & image & Hsq & Hp & Hi & ->).
    exists sq. split; [| apply elem_of_seqZ; lia].
    rewrite Hp. cbn zeta. rewrite Hi. apply list_elem_of_singleton. reflexivity.
Qed.

(** X6: with the images of [load_images], [draw_chessboard] draws every
    piece of the board, at the top-left corner of the cell of its square
    (the cell that a press on the piece falls in), and draws nothing else
    over the squares. *)
Theorem pieces_drawn_on_their_squares (sep : string) (loads : string -> bool)
    (b : Board) :
  let images := load_images sep loads in
  (forall sq piece,
     0 <= sq <= 63 -> piece_at b sq = Some piece ->
     exists image,
       get_piece_image images piece = Some image
       /\ Blit image (square_to_pixel sq) ∈ board_pieces images b)
  /\ (forall op,
        op ∈ board_pieces images b ->
        exists sq piece image,
          0 <= sq <= 63 /\ piece_at b sq = Some piece
          /\ get_piece_image images piece = Some image
          /\ op = Blit image (square_to_pixel sq)).
Proof.
  intros images. split.
  - intros sq piece Hsq Hp.
    assert (exists image, get_piece_image images piece = Some image) as [image Hi].
    { unfold get_piece_image, images. rewrite load_images_lookup.
      destruct (decide (_ ∈ image_keys)) as [_ | Hn]; [eexists; reflexivity |].
      exfalso. apply Hn. apply piece_key_known. }
    exists image. split; [exact Hi |].
    apply board_pieces_elem. exists sq, piece, image. auto.
  - intros op Hop. apply board_pieces_elem. exact Hop.
Qed.

(** X7: when the game is over, [update_display] blits the text "Game Over!
    Result: ..." last before the flip, at (10, 410): its top edge lies
    below the last row of the window, which is [HEIGHT] = 400 pixels
    high. *)
Theorem game_over_text_below_window images g ops :
  update_display text_size format_score result_text_of images g = Some ops ->
  is_game_over (board g) = true ->
  exists before dest,
    ops = before
          ++ [Blit (Rendered (String.append "Game Over! Result: "
                                (result_text_of (board g))) WHITE) dest;
              Flip; Pump]
    /\ dest = (10, 410) /\ HEIGHT <= snd dest.
Proof.
  unfold update_display. intros H Hgo.
  destruct (draw_evaluation_bar _ _ _) as [bar |]; [| discriminate].
  rewrite Hgo in H.
  exists ([Fill BLACK] ++ draw_chessboard images g ++ bar), (10, 410).
  split; [| split; [reflexivity | unfold HEIGHT; cbn; lia]].
  assert (E : forall a b : list DrawOp, Some a = Some b -> b = a)
    by (intros a b Hab; congruence).
  apply E in H. rewrite H. rewrite <- !app_assoc. reflexivity.
Qed.

(** X8: the evaluation bar for the score of an evaluation of [v]
    centipawns, [-32000 <= v <= 32000].  The bar lies in the window; it is
    empty from -500 centipawns down and full (400 pixels) from 500 up;
    between them its height is [(v + 500) * 2 / 5] rounded down, or one
    pixel less; it is green when [v >= 0] and red otherwise. *)
Theorem evaluation_bar_of_centipawns (v : Z) :
  -32000 <= v <= 32000 ->
  exists f bar_height rest,
    float_of_int v = Ok f
    /\ draw_evaluation_bar text_size format_score (clamp (f / 100))
       = Some (DrawRect BLACK (400, 0, 60, 400) 0
               :: DrawRect (if 0 <=? v then GREEN else RED)
                           (410, 400 - bar_height, 40, bar_height) 0
               :: rest)
    /\ on_screen (410, 400 - bar_height, 40, bar_height)
    /\ (v <= -500 -> bar_height = 0)
    /\ (500 <= v -> bar_height = 400)
    /\ (-500 <= v <= 500 ->
        (v + 500) * 2 / 5 - 1 <= bar_height <= (v + 500) * 2 / 5).
Proof.
  intros Hv.
  pose proof (all_from_spec bar_check _ _ v bar_check_all ltac:(lia)) as H.
  unfold bar_check in H.
  destruct (float_of_int v) as [f | e]; [| discriminate].
  cbn zeta in H.
  destruct (py_int _) as [bar_height |] eqn:Hh; [| discriminate].
  destruct (Bool.eqb _ _) eqn:Hc; [| discriminate].
  apply Bool.eqb_prop in Hc.
  assert (Hb : 0 <= bar_height <= 400
               /\ (v <= -500 -> bar_height = 0)
               /\ (500 <= v -> bar_height = 400)
               /\ (-500 <= v <= 500 ->
                   (v + 500) * 2 / 5 - 1 <= bar_height <= (v + 500) * 2 / 5)).
  { destruct (v <=? -500) eqn:Hlo.
    - apply Z.leb_le in Hlo. apply Z.eqb_eq in H. subst bar_height.
      split; [lia |]. split; [reflexivity |]. split; [lia |].
      intros Hm. assert (v = -500) as -> by lia.
      change ((-500 + 500) * 2 / 5) with 0. lia.
    - apply Z.leb_gt in Hlo. destruct (500 <=? v) eqn:Hhi.
      + apply Z.leb_le in Hhi. apply Z.eqb_eq in H. subst bar_height.
        split; [lia |]. split; [lia |]. split; [reflexivity |].
        intros Hm. assert (v = 500) as -> by lia.
        change ((500 + 500) * 2 / 5) with 400. lia.
      + apply Z.leb_gt in Hhi. apply andb_prop in H as [H H2].
        apply andb_prop in H as [H0 H1]. apply Z.leb_le in H0, H1, H2.
        assert (0 <= (v + 500) * 2 / 5 <= 399).
        { split; [apply Z.div_pos; lia |].
          assert ((v + 500) * 2 / 5 < 400) by (apply Z.div_lt_upper_bound; lia).
          lia. }
        split; [lia |]. split; [lia |]. split; [lia |]. intros _. lia. }
  destruct Hb as (Hr & Hlo & Hhi & Hmid).
  exists f, bar_height. eexists.
  split; [reflexivity |]. split.
  - unfold draw_evaluation_bar. rewrite Hh. cbn zeta. rewrite Hc. reflexivity.
  - split; [| auto]. unfold on_screen, WIDTH, HEIGHT. lia.
Qed.

End DisplayProperties.

(** X8 at 35 centipawns: the exact height is 214, the bar is 213 pixels
    high. *)
Lemma evaluation_bar_of_centipawns_witness :
  exists f bar_height rest,
    float_of_int 35 = Ok f
    /\ draw_evaluation_bar (fun _ => (30, 16)) (fun _ => "+0.3") (clamp (f / 100))
       = Some (DrawRect BLACK (400, 0, 60, 400) 0
               :: DrawRect (if 0 <=? 35 then GREEN else RED)
                           (410, 400 - bar_height, 40, bar_height) 0
               :: rest)
    /\ on_screen (410, 400 - bar_height, 40, bar_height)
    /\ (35 <= -500 -> bar_height = 0)
    /\ (500 <= 35 -> bar_height = 400)
    /\ (-500 <= 35 <= 500 ->
        (35 + 500) * 2 / 5 - 1 <= bar_height <= (35 + 500) * 2 / 5).
Proof.
  apply (evaluation_bar_of_centipawns (fun _ => (30, 16)) (fun _ => "+0.3") 35). lia.
Defined.

(** At 35 centipawns the bar is 213 pixels high, one less than the exact
    214. *)
Example bar_one_pixel_short :
  float_of_int 35 = Ok 35%float
  /\ py_int ((clamp (35 / 100) + 5.0) / 10.0 * 400)%float = Some 213.
Proof. split; vm_compute; reflexivity. Qed.

(** X7 at the end of the fool's mate. *)
Lemma game_over_text_below_window_witness :
  exists before dest,
    default [] (update_display (fun _ => (30, 16)) (fun _ => "+0.3") (fun _ => "0-1")
                  (load_images "/" (fun _ => true)) (after fools_mate))
    = before
      ++ [Blit (Rendered (String.append "Game Over! Result: " "0-1") WHITE) dest;
          Flip; Pump]
    /\ dest = (10, 410) /\ HEIGHT <= snd dest.
Proof.
  apply (game_over_text_below_window (R := Chess.rules)
           (fun _ => (30, 16)) (fun _ => "+0.3") (fun _ => "0-1")
           (load_images "/" (fun _ => true)) (after fools_mate)).
  - vm_compute. reflexivity.
  - vm_compute. reflexivity.
Defined.

(** ** The loop, event by event *)

Ltac invert_step :=
  repeat match goal with
    | H : ret _ = (_, Ok _) |- _ => apply ret_Ok in H as [? ?]; subst
    | H : refresh_score _ _ = (_, Ok _) |- _ =>
        apply refresh_score_Ok in H as (? & ? & ? & ?); subst
    | H : bind _ _ = (_, Ok _) |- _ =>
        apply bind_Ok in H as (? & ? & ? & ? & ? & ?); subst
    | H : ai_move _ _ = (_, Ok _) |- _ =>
        apply ai_move_Ok in H as [? | (? & ? & ? & ? & ? & ? & ?)]; subst
    | H : (if ?c then _ else _) = (_, Ok _) |- _ => destruct c eqn:?
    | H : match ?c with _ => _ end = (_, Ok _) |- _ => destruct c eqn:?
    end.

Section Loop.
Context `{R : RulesEngine}.
Implicit Types (adv : Advisor Board) (g : Game Board).

(** X9: along the loop the flag [ai_move_scheduled] and the timer agree:
    either the flag is set and the timer runs with 3000 ms, or the flag is
    down and the timer is stopped. *)
Theorem countdown_flag_matches_timer g :
  reachable g ->
  (ai_move_scheduled g = true /\ timer g = Some 3000)
  \/ (ai_move_scheduled g = false /\ timer g = None).
Proof.
  induction 1 as [sf adv l g H | g adv event l g' _ IH H].
  - apply refresh_score_Ok in H as (s & _ & -> & _). right. split; reflexivity.
  - destruct event; unfold handle_event in H; invert_step; cbn;
      first [exact IH | left; split; reflexivity | right; split; reflexivity].
Qed.

(** X10: an event changes the board in three ways only: by a move that is
    legal on it, made while the game is not over; by taking back the last
    move when there is one; by a fresh board. *)
Theorem board_changes_by_the_rules adv event g l g' :
  handle_event adv event g = (l, Ok g') ->
  board g' = board g
  \/ (exists move,
        is_game_over (board g) = false /\ is_legal (board g) move = true
        /\ board g' = push (board g) move)
  \/ (move_stack (board g) <> [] /\ board g' = pop (board g))
  \/ board g' = new_board.
Proof.
  intros H. destruct event.
  - unfold handle_event in H. invert_step. left. reflexivity.
  - unfold handle_event in H.
    destruct (negb (is_game_over (board g))) eqn:Hgo; [| invert_step; left; reflexivity].
    apply negb_true_iff in Hgo.
    destruct (on_board_area pos); [| invert_step; left; reflexivity].
    destruct (selected_square g) as [sel |].
    + destruct (is_legal (board g) _) eqn:Hl; [| invert_step; left; reflexivity].
      invert_step; right; left; eexists; (split; [exact Hgo |]);
        (split; [exact Hl | reflexivity]).
    + invert_step; left; reflexivity.
  - unfold handle_event in H. destruct (key =? K_u).
    + destruct (1 <=? Z.of_nat (length (move_stack (board g)))) eqn:Hlen;
        [| invert_step; left; reflexivity].
      invert_step. right. right. left. split; [| reflexivity].
      intros Hnil. rewrite Hnil in Hlen. discriminate.
    + destruct (key =? K_r); invert_step; [right; right; right | left]; reflexivity.
  - destruct (is_game_over (board g)) eqn:Hgo.
    + rewrite handle_timer_game_over in H by exact Hgo.
      inversion H; subst. left. reflexivity.
    + rewrite handle_timer in H by exact Hgo.
      invert_step; [left; reflexivity |].
      right. left. eexists. split; [reflexivity |]. split; [eassumption | reflexivity].
  - unfold handle_event in H. invert_step. left. reflexivity.
Qed.

(** X11: a second press that makes a legal move puts the move on the board
    (without promotion piece), clears the selection and stores the new
    evaluation; it starts the countdown of 3000 ms unless the move has
    ended the game, with or without an engine.  The mark of the engine's
    last move stays. *)
Theorem legal_human_move_arms_countdown adv pos g selected l s :
  let move := mkMove selected (pixel_to_square pos) None None in
  is_game_over (board g) = false -> on_board_area pos = true ->
  selected_square g = Some selected ->
  is_legal (board g) move = true ->
  get_evaluation_score adv (set_board g (push (board g) move)) = (l, Ok s) ->
  handle_event adv (MOUSEBUTTONDOWN pos) g
  = (l, Ok (if is_game_over (push (board g) move)
            then mkGame (stockfish g) (push (board g) move) None (last_ai_move g) s
                        (ai_move_scheduled g) (timer g) (running g)
            else mkGame (stockfish g) (push (board g) move) None (last_ai_move g) s
                        true (Some 3000) (running g))).
Proof.
  intros move Hgo Hb Hs Hl He.
  rewrite (handle_second_press_legal adv pos g selected Hgo Hb Hs Hl).
  fold move.
  rewrite (refresh_score_returns adv _ l s)
    by (erewrite evaluation_ext; [exact He | reflexivity | reflexivity]).
  cbn. destruct (is_game_over (push (board g) move));
    cbn; rewrite app_nil_r; reflexivity.
Qed.

(** Once [running] is false, no event sets it again. *)
Lemma handle_event_running adv event g l g' :
  handle_event adv event g = (l, Ok g') ->
  running g' = running g \/ (event = QUIT /\ running g' = false).
Proof.
  intros H. destruct event; unfold handle_event in H; invert_step; cbn; auto.
Qed.

Lemma process_events_stopped events g l g' :
  process_events events g = (l, Ok g') -> running g = false -> running g' = false.
Proof.
  revert g l. induction events as [| [adv event] rest IH]; intros g l H Hr; cbn in H.
  - apply ret_Ok in H as [_ <-]. exact Hr.
  - apply bind_Ok in H as (l1 & g1 & l2 & H1 & H2 & _).
    eapply IH; [exact H2 |].
    apply handle_event_running in H1 as [-> | [_ ->]]; [exact Hr | reflexivity].
Qed.

Lemma process_events_quit adv events g l g' :
  process_events events g = (l, Ok g') -> (adv, QUIT) ∈ events -> running g' = false.
Proof.
  revert g l. induction events as [| [adv' event] rest IH]; intros g l H Hin.
  - apply elem_of_nil in Hin. contradiction.
  - cbn in H. apply bind_Ok in H as (l1 & g1 & l2 & H1 & H2 & _).
    apply elem_of_cons in Hin as [Heq | Hin].
    + inversion Heq; subst. apply ret_Ok in H1 as [_ <-].
      eapply process_events_stopped; [exact H2 | reflexivity].
    + eapply IH; eassumption.
Qed.

Lemma main_loop_stopped frames g :
  running g = false -> main_loop frames g = ([], Ok g).
Proof. intros Hr. destruct frames; cbn; [| rewrite Hr]; reflexivity. Qed.

(** X12: a QUIT event ends the loop at the end of its batch: the events
    that come after it in the same batch are still handled, those of later
    batches never. *)
Theorem quit_ends_the_loop_after_the_batch adv events rest g l g1 :
  running g = true -> (adv, QUIT) ∈ events ->
  process_events events g = (l, Ok g1) ->
  main_loop (events :: rest) g = (l, Ok g1) /\ running g1 = false.
Proof.
  intros Hr Hin H.
  assert (Hr1 : running g1 = false) by (eapply process_events_quit; eassumption).
  split; [| exact Hr1].
  cbn [main_loop]. rewrite Hr, H. cbn [bind].
  rewrite (main_loop_stopped rest g1 Hr1). rewrite app_nil_r. reflexivity.
Qed.

(** Without an engine an event asks nothing, returns, and leaves the score
    at 0.0. *)
Lemma handle_event_no_engine adv event g :
  stockfish g = false -> current_score g = 0%float ->
  exists g', handle_event adv event g = ([], Ok g')
             /\ stockfish g' = false /\ current_score g' = 0%float.
Proof.
  intros Hsf Hsc.
  assert (Hrf : forall g0, stockfish g0 = false ->
                  refresh_score adv g0 = ([], Ok (set_current_score g0 0%float))).
  { intros g0 H0. apply refresh_score_returns. apply evaluation_no_engine. exact H0. }
  destruct event; unfold handle_event.
  - eexists. split; [reflexivity |]. cbn. auto.
  - destruct (negb (is_game_over (board g))); [| eauto].
    destruct (on_board_area pos); [| eauto].
    destruct (selected_square g) as [sel |].
    + destruct (is_legal (board g) _); [| eexists; split; [reflexivity | cbn; auto]].
      rewrite Hrf by exact Hsf. cbn.
      destruct (negb (is_game_over _)); eexists; (split; [reflexivity | cbn; auto]).
    + destruct (piece_at _ _) as [piece |]; [destruct (Color_eqb _ _) |];
        eexists; (split; [reflexivity | cbn; auto]).
  - destruct (key =? K_u).
    + destruct (1 <=? _); [| eauto].
      rewrite Hrf by exact Hsf. eexists. split; [reflexivity | cbn; auto].
    + destruct (key =? K_r); [| eauto].
      rewrite Hrf by exact Hsf. eexists. split; [reflexivity | cbn; auto].
  - destruct (negb (is_game_over _)).
    + rewrite ai_move_no_engine by exact Hsf. cbn [bind].
      rewrite Hrf by exact Hsf. eexists. split; [reflexivity | cbn; auto].
    + eexists. split; [reflexivity | cbn; auto].
  - eauto.
Qed.

Lemma process_events_no_engine events g :
  stockfish g = false -> current_score g = 0%float ->
  exists g', process_events events g = ([], Ok g')
             /\ stockfish g' = false /\ current_score g' = 0%float.
Proof.
  revert g. induction events as [| [adv event] rest IH]; intros g Hsf Hsc; cbn.
  - eauto.
  - destruct (handle_event_no_engine adv event g Hsf Hsc) as (g1 & -> & Hsf1 & Hsc1).
    destruct (IH g1 Hsf1 Hsc1) as (g2 & H2 & Hsf2 & Hsc2).
    exists g2. cbn. rewrite H2. auto.
Qed.

Lemma main_loop_no_engine frames g :
  stockfish g = false -> current_score g = 0%float ->
  exists g', main_loop frames g = ([], Ok g')
             /\ stockfish g' = false /\ current_score g' = 0%float.
Proof.
  revert g. induction frames as [| events rest IH]; intros g Hsf Hsc; cbn.
  - eauto.
  - destruct (running g); [| eauto].
    destruct (process_events_no_engine events g Hsf Hsc) as (g1 & -> & Hsf1 & Hsc1).
    destruct (IH g1 Hsf1 Hsc1) as (g2 & H2 & Hsf2 & Hsc2).
    exists g2. cbn. rewrite H2. auto.
Qed.

(** With presses at coordinates that are not negative, the selected square
    stays a square of the board: an event selects nothing but the square
    of such a press on the board area. *)
Lemma handle_event_selection adv event g l g' :
  press_nonnegative event = true ->
  handle_event adv event g = (l, Ok g') ->
  (forall s, selected_square g = Some s -> 0 <= s <= 63) ->
  forall s, selected_square g' = Some s -> 0 <= s <= 63.
Proof.
  intros Hp H Hinv s Hs. destruct event.
  - apply ret_Ok in H as [_ <-]. apply Hinv. exact Hs.
  - destruct pos as [x y]. cbn in Hp.
    apply andb_prop in Hp as [Hx Hy]. apply Z.leb_le in Hx, Hy.
    unfold handle_event in H.
    destruct (negb (is_game_over (board g)));
      [| apply ret_Ok in H as [_ <-]; apply Hinv; exact Hs].
    destruct (on_board_area (x, y)) eqn:Hb;
      [| apply ret_Ok in H as [_ <-]; apply Hinv; exact Hs].
    destruct (selected_square g) as [sel |] eqn:Hsel.
    + destruct (is_legal (board g) _).
      * apply bind_Ok in H as (l1 & g1 & l2 & H1 & H2 & _).
        apply refresh_score_Ok in H1 as (sc & _ & -> & _).
        destruct (negb _); apply ret_Ok in H2 as [_ <-]; discriminate Hs.
      * apply ret_Ok in H as [_ <-]. discriminate Hs.
    + assert (Hsq : 0 <= pixel_to_square (x, y) <= 63)
        by (apply pixel_to_square_range; assumption).
      destruct (piece_at _ _) as [piece |]; [destruct (Color_eqb _ _) |];
        apply ret_Ok in H as [_ <-].
      * cbn in Hs. injection Hs as <-. exact Hsq.
      * rewrite Hsel in Hs. discriminate Hs.
      * rewrite Hsel in Hs. discriminate Hs.
  - unfold handle_event in H. destruct (key =? K_u).
    + destruct (1 <=? _).
      * apply refresh_score_Ok in H as (sc & _ & -> & _). apply Hinv. exact Hs.
      * apply ret_Ok in H as [_ <-]. apply Hinv. exact Hs.
    + destruct (key =? K_r).
      * apply refresh_score_Ok in H as (sc & _ & -> & _). discriminate Hs.
      * apply ret_Ok in H as [_ <-]. apply Hinv. exact Hs.
  - unfold handle_event in H. destruct (negb _).
    + apply bind_Ok in H as (l1 & g1 & l2 & H1 & H2 & _).
      apply refresh_score_Ok in H2 as (sc & _ & -> & _).
      apply ai_move_Ok in H1 as [-> | (uci & move & _ & _ & _ & _ & ->)];
        apply Hinv; exact Hs.
    + apply ret_Ok in H as [_ <-]. apply Hinv. exact Hs.
  - apply ret_Ok in H as [_ <-]. apply Hinv. exact Hs.
Qed.

Lemma process_events_selection events g l g' :
  forallb (fun e => press_nonnegative (snd e)) events = true ->
  process_events events g = (l, Ok g') ->
  (forall s, selected_square g = Some s -> 0 <= s <= 63) ->
  forall s, selected_square g' = Some s -> 0 <= s <= 63.
Proof.
  revert g l. induction events as [| [adv event] rest IH]; intros g l Hp H Hinv;
    cbn in H, Hp.
  - apply ret_Ok in H as [_ <-]. exact Hinv.
  - apply andb_prop in Hp as [Hp1 Hp2].
    apply bind_Ok in H as (l1 & g1 & l2 & H1 & H2 & _).
    eapply IH; [exact Hp2 | exact H2 |].
    eapply handle_event_selection; eassumption.
Qed.

Lemma main_loop_selection frames g l g' :
  forallb (forallb (fun e => press_nonnegative (snd e))) frames = true ->
  main_loop frames g = (l, Ok g') ->
  (forall s, selected_square g = Some s -> 0 <= s <= 63) ->
  forall s, selected_square g' = Some s -> 0 <= s <= 63.
Proof.
  revert g l. induction frames as [| events rest IH]; intros g l Hp H Hinv;
    cbn in H, Hp.
  - apply ret_Ok in H as [_ <-]. exact Hinv.
  - apply andb_prop in Hp as [Hp1 Hp2]. destruct (running g).
    + apply bind_Ok in H as (l1 & g1 & l2 & H1 & H2 & _).
      eapply IH; [exact Hp2 | exact H2 |].
      eapply process_events_selection; eassumption.
    + apply ret_Ok in H as [_ <-]. exact Hinv.
Qed.

(** X13: when Stockfish could not be started, [run] returns for all events
    whose presses come at coordinates that are not negative (as pygame
    reports them); it asks no engine anything and ends with the score 0.0.
    The square selected at the end, if any, is a square of the board, as
    is every square that the run has handed to the rules. *)
Theorem without_engine_nothing_is_asked adv0 frames :
  forallb (forallb (fun e => press_nonnegative (snd e))) frames = true ->
  exists g, run adv0 frames (init false) = ([], Ok g)
            /\ stockfish g = false /\ current_score g = 0%float
            /\ forall s, selected_square g = Some s -> 0 <= s <= 63.
Proof.
  intros Hp. unfold run.
  rewrite (refresh_score_returns adv0 _ [] 0%float)
    by (apply evaluation_no_engine; reflexivity).
  cbn [bind].
  destruct (main_loop_no_engine frames
              (set_current_score (set_running (init false) true) 0%float)
              eq_refl eq_refl) as (g & Hg & Hsf & Hsc).
  rewrite Hg. exists g.
  split; [reflexivity |]. split; [exact Hsf |]. split; [exact Hsc |].
  eapply main_loop_selection; [exact Hp | exact Hg |].
  intros s Hs. discriminate Hs.
Qed.

(** With an engine whose evaluation depends on the position only, an event
    leaves the score equal to the evaluation of the board. *)
Lemma handle_event_keeps_score_current adv event g l g' :
  handle_event adv event g = (l, Ok g') ->
  result (get_evaluation_score adv g) = Ok (current_score g) ->
  result (get_evaluation_score adv g') = Ok (current_score g').
Proof.
  intros H Hinv.
  destruct event; unfold handle_event in H; invert_step;
    first [ exact Hinv
          | match goal with
            | Hx : get_evaluation_score adv ?g1 = (_, Ok ?x) |- _ =>
                erewrite (evaluation_ext adv _ g1);
                [rewrite Hx; reflexivity | reflexivity | reflexivity]
            end ].
Qed.

Lemma process_events_keeps_score_current adv (events : list Event) g l g' :
  process_events (map (pair adv) events) g = (l, Ok g') ->
  result (get_evaluation_score adv g) = Ok (current_score g) ->
  result (get_evaluation_score adv g') = Ok (current_score g').
Proof.
  revert g l. induction events as [| event rest IH]; intros g l H Hinv; cbn in H.
  - apply ret_Ok in H as [_ <-]. exact Hinv.
  - apply bind_Ok in H as (l1 & g1 & l2 & H1 & H2 & _).
    eapply IH; [exact H2 |]. eapply handle_event_keeps_score_current; eassumption.
Qed.

Lemma main_loop_keeps_score_current adv (frames : list (list Event)) g l g' :
  main_loop (map (map (pair adv)) frames) g = (l, Ok g') ->
  result (get_evaluation_score adv g) = Ok (current_score g) ->
  result (get_evaluation_score adv g') = Ok (current_score g').
Proof.
  revert g l. induction frames as [| events rest IH]; intros g l H Hinv; cbn in H.
  - apply ret_Ok in H as [_ <-]. exact Hinv.
  - destruct (running g).
    + apply bind_Ok in H as (l1 & g1 & l2 & H1 & H2 & _).
      eapply IH; [exact H2 |]. eapply process_events_keeps_score_current; eassumption.
    + apply ret_Ok in H as [_ <-]. exact Hinv.
Qed.

(** X14: when the engine's evaluation depends on the position only (the
    same answers at every event), [run] ends with the score that the
    evaluation retrieval gives for the board it ends with: no change of the
    board leaves an older score behind. *)
Theorem score_tracks_the_board adv sf (frames : list (list Event)) l g :
  run adv (map (map (pair adv)) frames) (init sf) = (l, Ok g) ->
  result (get_evaluation_score adv g) = Ok (current_score g).
Proof.
  unfold run. intros H. apply bind_Ok in H as (l1 & g1 & l2 & H1 & H2 & _).
  eapply main_loop_keeps_score_current; [exact H2 |].
  apply refresh_score_Ok in H1 as (s & Hs & -> & _).
  erewrite (evaluation_ext adv _ (set_running (init sf) true));
    [rewrite Hs; reflexivity | reflexivity | reflexivity].
Qed.

(** X15: the moves that presses make carry no promotion piece.  With rules
    under which a pawn reaches its last rank only by a move that names one,
    a press that would take the selected pawn there is handled as an
    invalid move: the selection is cleared and the board stays. *)
Theorem human_cannot_promote adv pos g selected :
  (forall b m, is_legal b m = true -> reaches_last_rank b m -> promotion m <> None) ->
  is_game_over (board g) = false -> on_board_area pos = true ->
  selected_square g = Some selected ->
  reaches_last_rank (board g) (mkMove selected (pixel_to_square pos) None None) ->
  handle_event adv (MOUSEBUTTONDOWN pos) g = ([], Ok (set_selected_square g None)).
Proof.
  intros Hrule Hgo Hb Hs Hr.
  apply handle_second_press_illegal with selected; try assumption.
  destruct (is_legal (board g) _) eqn:Hl; [| reflexivity].
  exfalso. apply (Hrule _ _ Hl Hr). reflexivity.
Qed.

Context {L : RulesLaws R}.

(** X16: U pressed after a legal move of the human gives back the board as
    it was before the move; the countdown that the move started keeps
    running, so that the engine will move on the board given back. *)
Theorem undo_takes_back_a_human_move adv adv' pos g selected l g1 l' g2 :
  is_game_over (board g) = false -> on_board_area pos = true ->
  selected_square g = Some selected ->
  is_legal (board g) (mkMove selected (pixel_to_square pos) None None) = true ->
  handle_event adv (MOUSEBUTTONDOWN pos) g = (l, Ok g1) ->
  handle_event adv' (KEYDOWN K_u) g1 = (l', Ok g2) ->
  board g2 = board g /\ selected_square g2 = None
  /\ (is_game_over (board g1) = false ->
      ai_move_scheduled g2 = true /\ timer g2 = Some 3000).
Proof.
  intros Hgo Hb Hs Hl H1 H2.
  rewrite (handle_second_press_legal adv pos g selected Hgo Hb Hs Hl) in H1.
  apply bind_Ok in H1 as (la & ga & lb & Ha & H1 & _).
  apply refresh_score_Ok in Ha as (s & _ & -> & _).
  assert (Hb1 : board g1 = push (board g) (mkMove selected (pixel_to_square pos) None None)).
  { destruct (negb _); apply ret_Ok in H1 as [_ <-]; reflexivity. }
  assert (Hne : move_stack (board g1) <> []).
  { rewrite Hb1.
    destruct (move_stack_push (board g) (mkMove selected (pixel_to_square pos) None None))
      as [m' ->].
    intros Hnil. apply app_eq_nil in Hnil as [_ Hnil]. discriminate. }
  rewrite (handle_undo adv' g1 Hne) in H2.
  apply refresh_score_Ok in H2 as (s' & _ & -> & _). cbn.
  rewrite Hb1 at 1. rewrite pop_push. split; [reflexivity |].
  cbn in H1. destruct (is_game_over (push (board g) _)) eqn:Hover; cbn in H1;
    apply ret_Ok in H1 as [_ <-]; cbn; (split; [reflexivity |]).
  - rewrite Hover. discriminate.
  - intros _. split; reflexivity.
Qed.

(** X17: U pressed right after R does nothing and asks the engine nothing:
    the fresh board has no move to take back. *)
Theorem undo_after_restart_does_nothing adv adv' g l g1 :
  handle_event adv (KEYDOWN K_r) g = (l, Ok g1) ->
  handle_event adv' (KEYDOWN K_u) g1 = ([], Ok g1).
Proof.
  rewrite handle_restart. intros H.
  apply refresh_score_Ok in H as (s & _ & -> & _).
  apply handle_undo_empty. cbn. apply move_stack_new.
Qed.

End Loop.

(** *** On the chess board *)

(** X9 after the human's first move. *)
Lemma countdown_flag_matches_timer_witness :
  (ai_move_scheduled (after opening) = true /\ timer (after opening) = Some 3000)
  \/ (ai_move_scheduled (after opening) = false /\ timer (after opening) = None).
Proof.
  apply (countdown_flag_matches_timer (R := Chess.rules)). apply reachable_opening.
Defined.

(** X10 on the second press of e2-e4. *)
Lemma board_changes_by_the_rules_witness :
  let g := after [(quiet, press 12)] in
  let g' := after opening in
  board g' = board g
  \/ (exists move,
        Chess.game_over (board g) = false /\ Chess.legal (Chess.position (board g)) move = true
        /\ board g' = Chess.board_push (board g) move)
  \/ (reverse (map fst (Chess.stack (board g))) <> [] /\ board g' = Chess.board_pop (board g))
  \/ board g' = Chess.starting_board.
Proof.
  intros g g'.
  apply (board_changes_by_the_rules (R := Chess.rules) quiet (press 28) g
           (calls (handle_event (R := Chess.rules) quiet (press 28) g)) g').
  vm_compute. reflexivity.
Defined.

(** X11 on the second press of e2-e4. *)
Lemma legal_human_move_arms_countdown_witness :
  let g := after [(quiet, press 12)] in
  let move := mkMove 12 28 None None in
  handle_event quiet (MOUSEBUTTONDOWN (225, 225)) g
  = ([QEvaluation (Chess.board_push (board g) move)],
     Ok (if Chess.game_over (Chess.board_push (board g) move)
         then mkGame (stockfish g) (Chess.board_push (board g) move) None
                     (last_ai_move g) (clamp (25 / 100)) (ai_move_scheduled g) (timer g)
                     (running g)
         else mkGame (stockfish g) (Chess.board_push (board g) move) None
                     (last_ai_move g) (clamp (25 / 100)) true (Some 3000) (running g))).
Proof.
  intros g move.
  apply (legal_human_move_arms_countdown (R := Chess.rules) quiet (225, 225) g 12).
  - vm_compute. reflexivity.
  - reflexivity.
  - vm_compute. reflexivity.
  - vm_compute. reflexivity.
  - vm_compute. reflexivity.
Defined.

(** X12: a batch in which QUIT comes before a press on e2; a second batch
    is not looked at. *)
Lemma quit_ends_the_loop_after_the_batch_witness :
  let events := [(quiet, QUIT); (quiet, press 12)] in
  let g1 := set_selected_square (set_running (after []) false) (Some 12) in
  main_loop [events; [(quiet, press 28)]] (after []) = ([], Ok g1)
  /\ running g1 = false.
Proof.
  intros events g1.
  apply (quit_ends_the_loop_after_the_batch (R := Chess.rules) quiet events
           [[(quiet, press 28)]] (after []) [] g1).
  - vm_compute. reflexivity.
  - apply list_elem_of_here.
  - vm_compute. reflexivity.
Defined.

(** X13: without an engine the human plays e2-e4 and the countdown ends;
    nothing is asked, and no move is made for Black. *)
Lemma without_engine_nothing_is_asked_witness :
  exists g,
    run quiet [[(quiet, press 12); (quiet, press 28)]; [(quiet, AI_MOVE_EVENT)]]
        (init false)
    = ([], Ok g)
    /\ stockfish g = false /\ current_score g = 0%float
    /\ forall s, selected_square g = Some s -> 0 <= s <= 63.
Proof.
  apply (without_engine_nothing_is_asked (R := Chess.rules) quiet
           [[(quiet, press 12); (quiet, press 28)]; [(quiet, AI_MOVE_EVENT)]]).
  vm_compute. reflexivity.
Defined.

(** X14 on the opening move and the engine's answer. *)
Lemma score_tracks_the_board_witness :
  let frames := [[press 12; press 28]; [AI_MOVE_EVENT]] in
  let m := run (replying "e7e5") (map (map (pair (replying "e7e5"))) frames) (init true) in
  let g := match result m with Ok g => g | Raise _ => init true end in
  result (get_evaluation_score (replying "e7e5") g) = Ok (current_score g).
Proof.
  intros frames m g.
  apply (score_tracks_the_board (R := Chess.rules) (replying "e7e5") true frames
           (calls m) g).
  vm_compute. reflexivity.
Defined.

(** In chess a pawn reaches its last rank only by a move that names the
    piece it becomes. *)
Lemma Chess_promotion_needed (b : Chess.ChessBoard) (m : Move) :
  is_legal (RulesEngine := Chess.rules) b m = true ->
  reaches_last_rank (R := Chess.rules) b m -> promotion m <> None.
Proof.
  intros Hl (piece & Hp & Hty & Hrank) Hnone. cbn in Hl, Hp.
  unfold Chess.legal in Hl.
  destruct (Chess.is_pseudo_legal (Chess.position b) m) eqn:Hps; [| discriminate].
  clear Hl. unfold Chess.is_pseudo_legal in Hps.
  destruct (Chess.is_null m); [discriminate |].
  destruct (drop m); [discriminate |].
  rewrite Hp, Hnone in Hps.
  destruct (Color_eqb (color piece) (Chess.side (Chess.position b))) eqn:Hc;
    [| discriminate].
  cbn [negb] in Hps.
  assert (Hk : Chess.is_king piece = false) by (unfold Chess.is_king; rewrite Hty; reflexivity).
  assert (Hpw : Chess.is_pawn piece = true) by (unfold Chess.is_pawn; rewrite Hty; reflexivity).
  rewrite Hk, Hpw in Hps.
  destruct (Chess.has_color _ _ _); [discriminate |].
  unfold Chess.pawn_move_ok in Hps. apply andb_prop in Hps as [Hprom _].
  assert (Hside : color piece = Chess.side (Chess.position b)).
  { destruct (color piece), (Chess.side (Chess.position b)); cbn in Hc; congruence. }
  unfold Chess.square_rank in Hprom. rewrite Hrank, Hside in Hprom.
  destruct (Chess.side (Chess.position b)); cbn in Hprom; discriminate.
Qed.

(** X15: White has chosen the pawn on a7 and presses on a8. *)
Lemma human_cannot_promote_witness :
  handle_event quiet (MOUSEBUTTONDOWN (25, 25)) pawn_on_seventh
  = ([], Ok (set_selected_square pawn_on_seventh None)).
Proof.
  apply (human_cannot_promote (R := Chess.rules) quiet (25, 25) pawn_on_seventh 48).
  - exact Chess_promotion_needed.
  - vm_compute. reflexivity.
  - reflexivity.
  - reflexivity.
  - exists (mkPiece Pawn White).
    split; [vm_compute; reflexivity |]. split; reflexivity.
Defined.

(** X16: e2-e4, then U. *)
Lemma undo_takes_back_a_human_move_witness :
  let g := after [(quiet, press 12)] in
  let g1 := after opening in
  let g2 := after (opening ++ [(quiet, KEYDOWN K_u)]) in
  board g2 = board g /\ selected_square g2 = None
  /\ (Chess.game_over (board g1) = false ->
      ai_move_scheduled g2 = true /\ timer g2 = Some 3000).
Proof.
  intros g g1 g2.
  apply (undo_takes_back_a_human_move (R := Chess.rules) (L := Chess_laws)
           quiet quiet (225, 225) g 12
           (calls (handle_event (R := Chess.rules) quiet (MOUSEBUTTONDOWN (225, 225)) g)) g1
           (calls (handle_event (R := Chess.rules) quiet (KEYDOWN K_u) g1)) g2).
  - vm_compute. reflexivity.
  - reflexivity.
  - vm_compute. reflexivity.
  - vm_compute. reflexivity.
  - vm_compute. reflexivity.
  - vm_compute. reflexivity.
Defined.

(** X17: e2-e4, R, then U. *)
Lemma undo_after_restart_does_nothing_witness :
  let g1 := after (opening ++ [(quiet, KEYDOWN K_r)]) in
  handle_event quiet (KEYDOWN K_u) g1 = ([], Ok g1).
Proof.
  intros g1.
  apply (undo_after_restart_does_nothing (R := Chess.rules) (L := Chess_laws)
           quiet quiet (after opening)
           (calls (handle_event (R := Chess.rules) quiet (KEYDOWN K_r) (after opening))) g1).
  vm_compute. reflexivity.
Defined.

(** ** What the engine is asked *)

Section Calls.
Context `{R : RulesEngine}.
Implicit Types (adv : Advisor Board) (g : Game Board).

Lemma evaluation_calls_engine adv g :
  calls (get_evaluation_score adv g)
  = if stockfish g then [QEvaluation (board g)] else [].
Proof.
  unfold get_evaluation_score, calls. destruct (stockfish g); [| reflexivity].
  destruct (get_evaluation adv (board g)) as [d | e]; [| reflexivity].
  cbn. destruct (raw_score d); reflexivity.
Qed.

Lemma ai_move_calls adv g :
  calls (ai_move adv g) = if stockfish g then [QBestMove (board g)] else [].
Proof.
  unfold ai_move, calls. destruct (stockfish g); [| reflexivity].
  destruct (get_best_move adv (board g)) as [[uci |] | e]; try reflexivity.
  cbn. destruct (negb (String.eqb uci "")); [| reflexivity].
  destruct (from_uci uci) as [move |]; [| reflexivity].
  destruct (is_legal (board g) move); reflexivity.
Qed.

Lemma refresh_score_calls adv g l g' :
  refresh_score adv g = (l, Ok g') ->
  board g' = board g /\ stockfish g' = stockfish g
  /\ l = if stockfish g then [QEvaluation (board g)] else [].
Proof.
  intros H. apply refresh_score_Ok in H as (s & Hs & -> & _).
  split; [reflexivity |]. split; [reflexivity |].
  rewrite <- (evaluation_calls_engine adv g), Hs. reflexivity.
Qed.

(** X18: an event that returns has asked the engine nothing, or only for
    the evaluation of the board it leaves, or (the timer event alone) for
    the best move on the board it found and then for the evaluation of the
    board it leaves. *)
Theorem engine_calls_of_an_event adv event g l g' :
  handle_event adv event g = (l, Ok g') ->
  l = []
  \/ l = [QEvaluation (board g')]
  \/ (event = AI_MOVE_EVENT /\ l = [QBestMove (board g); QEvaluation (board g')]).
Proof.
  intros H. destruct event.
  - apply ret_Ok in H as [-> _]. left. reflexivity.
  - unfold handle_event in H.
    destruct (negb (is_game_over (board g))); [| apply ret_Ok in H as [-> _]; auto].
    destruct (on_board_area pos); [| apply ret_Ok in H as [-> _]; auto].
    destruct (selected_square g) as [sel |].
    + destruct (is_legal (board g) _); [| apply ret_Ok in H as [-> _]; auto].
      apply bind_Ok in H as (l1 & g1 & l2 & H1 & H2 & ->).
      apply refresh_score_calls in H1 as (Hb & _ & ->).
      assert (l2 = [] /\ board g' = board g1) as [-> ->].
      { destruct (negb _); apply ret_Ok in H2 as [-> <-]; auto. }
      rewrite app_nil_r, Hb. destruct (stockfish _); auto.
    + destruct (piece_at _ _) as [piece |]; [destruct (Color_eqb _ _) |];
        apply ret_Ok in H as [-> _]; auto.
  - unfold handle_event in H. destruct (key =? K_u).
    + destruct (1 <=? _); [| apply ret_Ok in H as [-> _]; auto].
      apply refresh_score_calls in H as (-> & _ & ->). destruct (stockfish _); auto.
    + destruct (key =? K_r); [| apply ret_Ok in H as [-> _]; auto].
      apply refresh_score_calls in H as (-> & _ & ->). destruct (stockfish _); auto.
  - unfold handle_event in H.
    destruct (negb (is_game_over _)); [| apply ret_Ok in H as [-> _]; auto].
    apply bind_Ok in H as (l1 & g1 & l2 & H1 & H2 & ->).
    apply refresh_score_calls in H2 as (-> & _ & ->).
    pose proof (ai_move_calls adv (set_ai_move_scheduled (set_timer g 0) false)) as Hc.
    rewrite H1 in Hc. cbn [calls fst] in Hc. subst l1.
    assert (Hsf : stockfish g1 = stockfish g).
    { apply ai_move_Ok in H1 as [-> | (uci & move & _ & _ & _ & _ & ->)]; reflexivity. }
    rewrite Hsf. cbn [stockfish board set_ai_move_scheduled set_timer].
    destruct (stockfish g); auto.
  - apply ret_Ok in H as [-> _]. left. reflexivity.
Qed.

End Calls.

(** X18 on the engine's answer to e2-e4. *)
Lemma engine_calls_of_an_event_witness :
  let g := after opening in
  let g' := after (opening ++ [(replying "e7e5", AI_MOVE_EVENT)]) in
  let l := calls (handle_event (replying "e7e5") AI_MOVE_EVENT g) in
  l = []
  \/ l = [QEvaluation (board g')]
  \/ (AI_MOVE_EVENT = AI_MOVE_EVENT /\ l = [QBestMove (board g); QEvaluation (board g')]).
Proof.
  intros g g' l.
  apply (engine_calls_of_an_event (R := Chess.rules) (replying "e7e5") AI_MOVE_EVENT g l g').
  vm_compute. reflexivity.
Defined.

(** ** The mark of the engine's last move *)

Section Marks.
Context `{R : RulesEngine}.
Implicit Types (adv : Advisor Board) (g : Game Board).

(** X19: [last_ai_move], which [draw_chessboard] outlines in orange,
    changes in two ways only: the timer event sets it to the move that the
    engine has just made, a move legal on the board before; R clears it.
    Every other event, U included, leaves it, also when the move it names
    has been taken back. *)
Theorem engine_mark_changes adv event g l g' :
  handle_event adv event g = (l, Ok g') ->
  last_ai_move g' = last_ai_move g
  \/ (event = KEYDOWN K_r /\ last_ai_move g' = None /\ board g' = new_board)
  \/ (event = AI_MOVE_EVENT
      /\ exists move,
           last_ai_move g' = Some move /\ is_legal (board g) move = true
           /\ board g' = push (board g) move).
Proof.
  intros H. destruct event.
  - unfold handle_event in H. invert_step. left. reflexivity.
  - unfold handle_event in H. invert_step; left; reflexivity.
  - unfold handle_event in H. destruct (key =? K_u) eqn:Hu.
    + invert_step; left; reflexivity.
    + destruct (key =? K_r) eqn:Hr; [| invert_step; left; reflexivity].
      apply Z.eqb_eq in Hr. subst key. invert_step. right. left. auto.
  - unfold handle_event in H. invert_step; [left; reflexivity | | left; reflexivity].
    right. right. split; [reflexivity |]. eexists. split; [reflexivity |].
    split; [eassumption | reflexivity].
  - unfold handle_event in H. invert_step. left. reflexivity.
Qed.

End Marks.

(** X19: the engine has answered e2-e4 with e7-e5; U takes the answer
    back, and the mark stays on e7 and e5. *)
Lemma engine_mark_changes_witness :
  let g := after (opening ++ [(replying "e7e5", AI_MOVE_EVENT)]) in
  let g' := after (opening ++ [(replying "e7e5", AI_MOVE_EVENT); (quiet, KEYDOWN K_u)]) in
  last_ai_move g' = last_ai_move g
  \/ (KEYDOWN K_u = KEYDOWN K_r /\ last_ai_move g' = None
      /\ board g' = Chess.starting_board)
  \/ (KEYDOWN K_u = AI_MOVE_EVENT
      /\ exists move,
           last_ai_move g' = Some move
           /\ Chess.legal (Chess.position (board g)) move = true
           /\ board g' = Chess.board_push (board g) move).
Proof.
  intros g g'.
  apply (engine_mark_changes (R := Chess.rules) quiet (KEYDOWN K_u) g
           (calls (handle_event (R := Chess.rules) quiet (KEYDOWN K_u) g)) g').
  vm_compute. reflexivity.
Defined.
